(** * SimOTA dynamic label assignment (nano/models/assigners/simota.py)

    A shallow embedding of [SimOTA.center_sampling], [SimOTA.dynamic_topk]
    and [SimOTA.assign_batch], and the properties of the assignment that
    the specification states.

    Conventions of the embedding.
    - A tensor of rank one is a [list]; a tensor of rank two is a list of
      rows.  Floating-point values are exact rationals ([Q]); rounding,
      infinities and NaN are outside the model, so results that rest on
      the range of the IoU are stated for well-formed boxes, where the
      rational and the floating-point quotient agree up to rounding.
    - The transcendental primitives of torch ([log], [sigmoid] and the
      element-wise [binary_cross_entropy]) are parameters of the
      development.  [torch.topk], [torch.min] and [argmax] return the
      first index among equal values.
    - The shapes are those of the call contract: [pred] is
      N x A x (4 + num_classes), one anchor per row of [pred[bi]].  The
      Python exceptions left are [torch.topk] with [k] larger than the
      row, [one_hot] on a class id that is not below [num_classes], and
      an index out of range; they are [None].
    - [self.max_topk], the only attribute the assignment writes, is
      threaded as explicit state.

    The rest of the assigner module ([label_smoothing], [iou_loss],
    [compute_loss], [SimOTA.forward]) is embedded after the assignment,
    with the loss functions of other modules as parameters; then [iid]
    and [register_shape] of xnnc/xnnc_caffe.py (the module counter as
    state, [shape_dict] as an association list in insertion order),
    the detection head and the Focus kernel of
    yolov5_cspdarknet_0_5x/model.py, and the two image conversions of
    coco_box2d_visualize.py (arrays of rank three as nested lists of
    equal lengths). *)

From Stdlib Require Import List Bool Arith ZArith QArith Qminmax Qabs Lia Lqa.
From Stdlib Require Import Permutation Sorted.
From Stdlib Require String Ascii DecimalString DecimalNat.
Import ListNotations.

(** ** Tensor primitives *)

Module Torch.

Definition Qlt_bool (x y : Q) : bool := negb (Qle_bool y x).

(** [x.sum()] on a tensor of naturals, and on a float tensor. *)
Definition sum_nat (xs : list nat) : nat := fold_right Nat.add 0%nat xs.
Definition sum_Q (xs : list Q) : Q := fold_right Qplus 0 xs.

(** A bool tensor read as numbers (what [.sum()] and [.float()] do). *)
Definition b2n (b : bool) : nat := if b then 1%nat else 0%nat.
Definition b2q (b : bool) : Q := if b then 1 else 0.
Definition count_true (m : list bool) : nat := sum_nat (map b2n m).

(** [xs[mask]]: the entries of [xs] at the positions where [mask] holds. *)
Fixpoint mask_select {X} (mask : list bool) (xs : list X) : list X :=
  match mask, xs with
  | b :: mask', x :: xs' =>
      if b then x :: mask_select mask' xs' else mask_select mask' xs'
  | _, _ => []
  end.

(** [dst[mask] = vals]: the marked positions of [dst] receive the entries
    of [vals] in order.  torch raises when [vals] has not one entry per
    marked position; the assigner only calls it with matching shapes (see
    [assign_image_shapes]), where the clause for an exhausted [vals] is
    not reached. *)
Fixpoint mask_scatter {X} (mask : list bool) (dst vals : list X) : list X :=
  match mask, dst with
  | true :: mask', d :: dst' =>
      match vals with
      | v :: vals' => v :: mask_scatter mask' dst' vals'
      | [] => d :: mask_scatter mask' dst' []
      end
  | false :: mask', d :: dst' => d :: mask_scatter mask' dst' vals
  | _, _ => dst
  end.

(** Column [p] of a matrix ([M[:, p]]), and [M.sum(0)]. *)
Definition col {X} (d : X) (M : list (list X)) (p : nat) : list X :=
  map (fun row => nth p row d) M.

(** [M[:, mask]]. *)
Definition select_cols {X} (mask : list bool) (M : list (list X)) : list (list X) :=
  map (mask_select mask) M.

(** Element-wise [&] and [|] of two bool tensors. *)
Definition zip_with {X Y Z} (f : X -> Y -> Z) (xs : list X) (ys : list Y) : list Z :=
  map (fun xy => f (fst xy) (snd xy)) (combine xs ys).

(** First index of the minimum ([torch.min(..., dim).indices]) and of the
    maximum ([argmax]) of a non-empty vector. *)
Fixpoint argmin_from (best : Q) (ibest i : nat) (xs : list Q) : nat :=
  match xs with
  | [] => ibest
  | x :: xs' =>
      if Qlt_bool x best then argmin_from x i (S i) xs'
      else argmin_from best ibest (S i) xs'
  end.

Definition argmin (xs : list Q) : nat :=
  match xs with
  | [] => 0%nat
  | x :: xs' => argmin_from x 0 1 xs'
  end.

Fixpoint argmax_from (best ibest i : nat) (xs : list nat) : nat :=
  match xs with
  | [] => ibest
  | x :: xs' =>
      if (best <? x)%nat then argmax_from x i (S i) xs'
      else argmax_from best ibest (S i) xs'
  end.

Definition argmax (xs : list nat) : nat :=
  match xs with
  | [] => 0%nat
  | x :: xs' => argmax_from x 0 1 xs'
  end.

(** [x.max(0).values] of a column of floats. *)
Definition max_Q (xs : list Q) : Q :=
  match xs with
  | [] => 0
  | x :: xs' => fold_left Qmax xs' x
  end.

(** Insertion into a list of floats sorted in descending order. *)
Fixpoint insert_desc (x : Q) (l : list Q) : list Q :=
  match l with
  | [] => [x]
  | y :: l' => if Qle_bool y x then x :: l else y :: insert_desc x l'
  end.

Definition sort_desc (l : list Q) : list Q := fold_right insert_desc [] l.

(** [torch.topk(row, k).values]: the [k] largest values, and [None] for
    the RuntimeError torch raises when [k] exceeds the row. *)
Definition topk_values (k : nat) (row : list Q) : option (list Q) :=
  if (k <=? length row)%nat then Some (firstn k (sort_desc row)) else None.

(** Indices of [row] ordered by (value, index): the order in which
    [torch.topk(row, k, largest=False)] returns them, the first index
    winning among equal values. *)
Fixpoint insert_idx (row : list Q) (i : nat) (l : list nat) : list nat :=
  match l with
  | [] => [i]
  | j :: l' =>
      if Qle_bool (nth i row 0) (nth j row 0) then i :: l
      else j :: insert_idx row i l'
  end.

Definition argsort (row : list Q) : list nat :=
  fold_right (insert_idx row) [] (seq 0 (length row)).

Definition topk_smallest (k : nat) (row : list Q) : option (list nat) :=
  if (k <=? length row)%nat then Some (firstn k (argsort row)) else None.

(** [x.int()] on a float: truncation toward zero. *)
Definition Qtrunc (x : Q) : Z := Z.quot (Qnum x) (Zpos (Qden x)).

(** [row[idx] = v] for a list of indices (all in range at the call site). *)
Fixpoint set_nth {X} (i : nat) (v : X) (row : list X) : list X :=
  match row, i with
  | [], _ => []
  | _ :: row', O => v :: row'
  | x :: row', S i' => x :: set_nth i' v row'
  end.

Definition index_put {X} (row : list X) (idx : list nat) (v : X) : list X :=
  fold_left (fun r i => set_nth i v r) idx row.

End Torch.

Import Torch.

(** ** Data model *)

(** A box in absolute image coordinates, [(x1, y1, x2, y2)]. *)
Record Box := { x1 : Q; y1 : Q; x2 : Q; y2 : Q }.

(** One row of [pred[bi]]: the decoded box followed by the score columns
    [pred[..., 4:]], one per class. *)
Record Pred := { p_box : Box; p_scores : list Q }.

(** One row of [target]: [< collate_id, cid, (abs)xyxy >]. *)
Record Target := { t_img : nat; t_cls : nat; t_box : Box }.

(** One anchor: its row of [grid_mask] and its entry of [stride_mask]. *)
Record Anchor := { gx : Q; gy : Q; stride : Q }.

Definition proper_box (b : Box) : Prop := x1 b < x2 b /\ y1 b < y2 b.

(** ** center_sampling *)

Module CenterSampling.

Definition x_center (a : Anchor) : Q := (gx a + 0.5) * stride a.
Definition y_center (a : Anchor) : Q := (gy a + 0.5) * stride a.

(** [b_l, b_t, b_r, b_b] of one (target, anchor) pair. *)
Definition b_l (t : Target) (a : Anchor) : Q := x_center a - x1 (t_box t).
Definition b_t (t : Target) (a : Anchor) : Q := y_center a - y1 (t_box t).
Definition b_r (t : Target) (a : Anchor) : Q := x2 (t_box t) - x_center a.
Definition b_b (t : Target) (a : Anchor) : Q := y2 (t_box t) - y_center a.

(** [bbox_deltas.min(dim=-1).values > 0.0] *)
Definition in_box (t : Target) (a : Anchor) : bool :=
  Qlt_bool 0 (Qmin (Qmin (b_l t a) (b_t t a)) (Qmin (b_r t a) (b_b t a))).

Definition center_radius : Q := 2.5.

Definition bbox_xc (t : Target) : Q := (x1 (t_box t) + x2 (t_box t)) / 2.
Definition bbox_yc (t : Target) : Q := (y1 (t_box t) + y2 (t_box t)) / 2.
Definition c_x (t : Target) (a : Anchor) : Q := Qabs (x_center a - bbox_xc t).
Definition c_y (t : Target) (a : Anchor) : Q := Qabs (y_center a - bbox_yc t).

(** [center_deltas.max(dim=-1).values < center_radius * stride_mask] *)
Definition in_center (t : Target) (a : Anchor) : bool :=
  Qlt_bool (Qmax (c_x t a) (c_y t a)) (center_radius * stride a).

(** The (T, A) matrices [is_in_boxes] and [is_in_centers]. *)
Definition is_in_boxes (targets : list Target) (anchors : list Anchor) : list (list bool) :=
  map (fun t => map (in_box t) anchors) targets.
Definition is_in_centers (targets : list Target) (anchors : list Anchor) : list (list bool) :=
  map (fun t => map (in_center t) anchors) targets.

(** [M.sum(dim=0) > 0] for a (T, A) bool matrix. *)
Definition any_rows (A : nat) (M : list (list bool)) : list bool :=
  map (fun p => (0 <? sum_nat (map b2n (col false M p)))%nat) (seq 0 A).

Definition center_sampling (targets : list Target) (anchors : list Anchor)
  : list bool * list (list bool) :=
  let A := length anchors in
  let is_in_boxes_all := any_rows A (is_in_boxes targets anchors) in
  let is_in_centers_all := any_rows A (is_in_centers targets anchors) in
  let is_in_boxes_anchor := zip_with orb is_in_boxes_all is_in_centers_all in
  let is_in_boxes_and_center :=
    zip_with (zip_with andb)
      (select_cols is_in_boxes_anchor (is_in_boxes targets anchors))
      (select_cols is_in_boxes_anchor (is_in_centers targets anchors)) in
  (is_in_boxes_anchor, is_in_boxes_and_center).

(** The two tests in the words of the specification. *)
Definition inside_box (t : Target) (a : Anchor) : Prop :=
  0 < x_center a - x1 (t_box t) /\ 0 < y_center a - y1 (t_box t) /\
  0 < x2 (t_box t) - x_center a /\ 0 < y2 (t_box t) - y_center a.

Definition inside_center (t : Target) (a : Anchor) : Prop :=
  Qabs (x_center a - (x1 (t_box t) + x2 (t_box t)) / 2) < 2.5 * stride a /\
  Qabs (y_center a - (y1 (t_box t) + y2 (t_box t)) / 2) < 2.5 * stride a.

End CenterSampling.

(** ** torchvision.ops.boxes.box_iou *)

Module Torchvision.

Definition box_area (b : Box) : Q := (x2 b - x1 b) * (y2 b - y1 b).

(** [wh = (rb - lt).clamp(min=0)], [inter = wh[0] * wh[1]]. *)
Definition box_inter (a b : Box) : Q :=
  Qmax 0 (Qmin (x2 a) (x2 b) - Qmax (x1 a) (x1 b)) *
  Qmax 0 (Qmin (y2 a) (y2 b) - Qmax (y1 a) (y1 b)).

Definition box_union (a b : Box) : Q := box_area a + box_area b - box_inter a b.

(** Entry [(i, j)] of [box_iou(boxes1, boxes2)] for [a = boxes1[i]] and
    [b = boxes2[j]]. *)
Definition box_iou (a b : Box) : Q := box_inter a b / box_union a b.

End Torchvision.

Import Torchvision.

(** ** The assigner *)

(** State and exceptions of one call: [self.max_topk] is the state, a
    raised exception is [None]. *)
Module Run.

Definition M (A : Type) : Type := Q -> option (A * Q).

Definition ret {A} (a : A) : M A := fun s => Some (a, s).

Definition bind {A B} (m : M A) (f : A -> M B) : M B :=
  fun s => match m s with
           | Some (a, s') => f a s'
           | None => None
           end.

Definition lift {A} (o : option A) : M A :=
  fun s => match o with
           | Some a => Some (a, s)
           | None => None
           end.

Definition put (v : Q) : M unit := fun _ => Some (tt, v).

(** The value a run returns, its final state dropped. *)
Definition result {A} (r : option (A * Q)) : option A :=
  match r with
  | Some (a, _) => Some a
  | None => None
  end.

End Run.

Import Run.

Notation "x <- m ;; k" := (bind m (fun x => k))
  (at level 61, m at next level, right associativity).

(** [mapM] in [option]. *)
Fixpoint map_opt {X Y} (f : X -> option Y) (xs : list X) : option (list Y) :=
  match xs with
  | [] => Some []
  | x :: xs' =>
      match f x with
      | Some y =>
          match map_opt f xs' with
          | Some ys => Some (y :: ys)
          | None => None
          end
      | None => None
      end
  end.

(** [xs[idx]] for a tensor of indices; an index out of range raises. *)
Definition gather {X} (xs : list X) (idx : list nat) : option (list X) :=
  map_opt (nth_error xs) idx.

(** The four tensors [assign_batch] returns (and the four per-image pieces
    it collects). *)
Record Assignment := {
  match_mask : list bool;
  box_target : list Box;
  obj_target : list Q;
  cls_target : list nat
}.

(** [torch.cat] of the collected pieces, field by field. *)
Definition cat (parts : list Assignment) : Assignment :=
  {| match_mask := concat (map match_mask parts);
     box_target := concat (map box_target parts);
     obj_target := concat (map obj_target parts);
     cls_target := concat (map cls_target parts) |}.

Section SimOTA.

(** [torch.log], [Tensor.sigmoid] and the element-wise
    [binary_cross_entropy(input, target, reduction="none")]. *)
Variable log : Q -> Q.
Variable sigmoid : Q -> Q.
Variable binary_cross_entropy : Q -> Q -> Q.

(** [self.num_classes] *)
Variable num_classes : nat.

(** [one_hot(cid, num_classes)], which raises on a class id that is not
    below [num_classes]. *)
Definition one_hot (c : nat) : option (list Q) :=
  if (c <? num_classes)%nat
  then Some (map (fun i => if (i =? c)%nat then 1 else 0) (seq 0 num_classes))
  else None.

Definition pair_wise_iou (target : list Target) (paired : list Pred) : list (list Q) :=
  map (fun t => map (fun p => box_iou (t_box t) (p_box p)) paired) target.

Definition pair_wise_iou_loss (iou : list (list Q)) : list (list Q) :=
  map (map (fun v => - log (v + 1e-8))) iou.

(** [binary_cross_entropy(cls_pred, cls_target, reduction="none").sum(-1)] *)
Definition pair_wise_cls_loss (cls_target : list (list Q)) (paired : list Pred)
  : list (list Q) :=
  map (fun onehot =>
         map (fun p =>
                sum_Q (zip_with binary_cross_entropy
                         (map sigmoid (p_scores p)) onehot))
             paired)
      cls_target.

(** [cost = pair_wise_cls_loss + 3.0 * pair_wise_iou_loss
           + 100000.0 * (~in_box_center)] *)
Definition cost_matrix (cls_loss iou_loss : list (list Q))
  (in_box_center : list (list bool)) : list (list Q) :=
  zip_with (zip_with Qplus)
    (zip_with (zip_with Qplus) cls_loss (map (map (Qmult 3.0)) iou_loss))
    (map (map (fun b => 100000.0 * b2q (negb b))) in_box_center).

(** [torch.clamp(topk_ious.sum(1).int(), min=1)] for one row of
    [topk_ious]. *)
Definition dynamic_k (topk_row : list Q) : Z := Z.max 1 (Qtrunc (sum_Q topk_row)).

(** The loop over targets: row [t] of the matching matrix receives a one
    at the [dynamic_ks[t]] indices [torch.topk(cost[t], largest=False)]
    returns. *)
Definition select_row (P : nat) (cost_row : list Q) (k : Z) : option (list nat) :=
  match topk_smallest (Z.to_nat k) cost_row with
  | Some p => Some (index_put (repeat 0%nat P) p 1%nat)
  | None => None
  end.

Definition select_topk (P : nat) (cost : list (list Q)) (dynamic_ks : list Z)
  : option (list (list nat)) :=
  map_opt (fun ck => select_row P (fst ck) (snd ck)) (combine cost dynamic_ks).

(** [matching_matrix.sum(0)] *)
Definition col_sums (P : nat) (M : list (list nat)) : list nat :=
  map (fun p => sum_nat (col 0%nat M p)) (seq 0 P).

(** [M[t, p] = v] *)
Definition set_entry (M : list (list nat)) (t p : nat) (v : nat) : list (list nat) :=
  set_nth t (set_nth p v (nth t M [])) M.

(** "purge duplicated assignment" *)
Definition purge (P : nat) (cost : list (list Q)) (matching_matrix : list (list nat))
  : list (list nat) :=
  let targets_per_anchor := col_sums P matching_matrix in
  let dup := map (fun s => (1 <? s)%nat) targets_per_anchor in
  if (0 <? count_true dup)%nat then
    let cost_dup := select_cols dup cost in
    let cost_argmin :=
      map (fun j => argmin (col 0 cost_dup j)) (seq 0 (count_true dup)) in
    let cleared :=
      map (fun row =>
             mask_scatter dup row (map (fun v => (v * 0)%nat) (mask_select dup row)))
          matching_matrix in
    fold_left (fun M tp => set_entry M (fst tp) (snd tp) 1%nat)
      (combine cost_argmin (mask_select dup (seq 0 P))) cleared
  else matching_matrix.

(** Lines 207-216: the cost matrix of the targets against the paired
    predictions. *)
Definition build_cost (target : list Target) (paired : list Pred)
  (in_box_center : list (list bool)) : option (list (list Q)) :=
  match map_opt (fun t => one_hot (t_cls t)) target with
  | Some cls_target =>
      Some (cost_matrix (pair_wise_cls_loss cls_target paired)
              (pair_wise_iou_loss (pair_wise_iou target paired))
              in_box_center)
  | None => None
  end.

(** [torch.topk(pair_wise_iou, n_candidate_k, dim=1)] with
    [n_candidate_k = min(10, P)]. *)
Definition top_ious (P : nat) (iou : list (list Q)) : option (list (list Q)) :=
  map_opt (topk_values (Nat.min 10 P)) iou.

(** "collect results": [mp], [tp] and [p_iou] from the purged matrix. *)
Definition collect (P : nat) (iou : list (list Q)) (matching_matrix : list (list nat))
  : list bool * list nat * list Q :=
  let mp := map (fun s => (0 <? s)%nat) (col_sums P matching_matrix) in
  let matched := select_cols mp matching_matrix in
  let tp := map (fun j => argmax (col 0%nat matched j)) (seq 0 (count_true mp)) in
  let p_iou := map (fun p => max_Q (col 0 iou p)) (seq 0 P) in
  (mp, tp, p_iou).

(** [dynamic_topk(input, target, in_box, in_box_center)], returning
    [(mp, tp, p_iou)]. *)
Definition dynamic_topk (input : list Pred) (target : list Target)
  (in_box : list bool) (in_box_center : list (list bool))
  : M (list bool * list nat * list Q) :=
  let paired := mask_select in_box input in
  let T := length target in
  let P := length paired in
  let iou := pair_wise_iou target paired in
  cost <- lift (build_cost target paired in_box_center) ;;
  topk_ious <- lift (top_ious P iou) ;;
  let dynamic_ks := map dynamic_k topk_ious in
  _ <- put (sum_Q (map sum_Q topk_ious) / inject_Z (Z.of_nat T)) ;;
  selected <- lift (select_topk P cost dynamic_ks) ;;
  let matching_matrix := purge P cost selected in
  ret (collect P iou matching_matrix).

(** The body of the loop of [assign_batch] for image [bi]. *)
Definition assign_image (target : list Target) (anchors : list Anchor)
  (bi : nat) (pred_per_image : list Pred) : M Assignment :=
  let target_per_image := filter (fun t => (t_img t =? bi)%nat) target in
  let A := length pred_per_image in
  if (length target_per_image =? 0)%nat then
    ret {| match_mask := repeat false A;
           box_target := [];
           obj_target := repeat 0 A;
           cls_target := repeat 0%nat A |}
  else
    let '(in_box, in_box_center) :=
      CenterSampling.center_sampling target_per_image anchors in
    r <- dynamic_topk pred_per_image target_per_image in_box in_box_center ;;
    let '(mp, tp, p_iou) := r in
    let m := mask_scatter in_box in_box mp in
    matched_targets <- lift (gather target_per_image tp) ;;
    let box_t := map t_box matched_targets in
    let obj_0 := map b2q m in
    let obj_t :=
      mask_scatter m obj_0
        (zip_with Qmult (mask_select m obj_0) (mask_select mp p_iou)) in
    let cls_t := mask_scatter m (repeat num_classes A) (map t_cls matched_targets) in
    ret {| match_mask := m; box_target := box_t;
           obj_target := obj_t; cls_target := cls_t |}.

Fixpoint assign_images (target : list Target) (anchors : list Anchor)
  (bi : nat) (pred : list (list Pred)) : M (list Assignment) :=
  match pred with
  | [] => ret []
  | pred_per_image :: rest =>
      a <- assign_image target anchors bi pred_per_image ;;
      r <- assign_images target anchors (S bi) rest ;;
      ret (a :: r)
  end.

(** [assign_batch(pred, target, grid_mask, stride_mask)] *)
Definition assign_batch (pred : list (list Pred)) (target : list Target)
  (anchors : list Anchor) : M Assignment :=
  parts <- assign_images target anchors 0 pred ;;
  ret (cat parts).

End SimOTA.

(** ** label_smoothing *)

(** [target[mask] = v] for a scalar [v]. *)
Definition mask_fill {X} (mask : list bool) (target : list X) (v : X) : list X :=
  zip_with (fun (b : bool) x => if b then v else x) mask target.

(** [label_smoothing(target, eps, num_classes, inplace)] on a flat tensor,
    [eps] and [num_classes] being Python numbers: the division raises
    ZeroDivisionError when [num_classes] is 1.  The result is the tensor
    of the caller after the call, which [inplace] decides, and the tensor
    returned. *)
Definition label_smoothing (target : list Q) (eps : Q) (num_classes : Z)
  (inplace : bool) : option (list Q * list Q) :=
  let label_indexes := map (fun v => Qlt_bool 0 v) target in
  let positive := mask_fill label_indexes target (1 - eps) in
  if (num_classes - 1 =? 0)%Z then None
  else
    let smoothed :=
      mask_fill (map negb label_indexes) positive
        (eps / inject_Z (num_classes - 1)) in
    Some (if inplace then smoothed else target, smoothed).

(** ** iou_loss, compute_loss and SimOTA.forward *)

(** The [reduction] argument of [iou_loss]: "mean", "sum", or any other
    string, which leaves the loss as it is. *)
Inductive Reduction := Mean | Sum | Unreduced.

(** A loss: a tensor of rank zero, or one value per box. *)
Inductive Loss := Scalar (v : Q) | PerBox (v : list Q).

Section Loss.

Variable log : Q -> Q.
Variable sigmoid : Q -> Q.
Variable binary_cross_entropy : Q -> Q -> Q.
Variable num_classes : nat.

(** [completely_box_iou(input, target)] of nano.ops.box2d, on two tensors
    of boxes; [quality_focal_loss(pred, (cls, obj), beta=2,
    reduction="sum")] of gfocal_loss; [Tensor.mean]. *)
Variable completely_box_iou : list Box -> list Box -> list Q.
Variable quality_focal_loss : list (list Q) -> list nat * list Q -> Q.
Variable mean : list Q -> Q.

(** [self.compute_loss] *)
Variable compute_loss_flag : bool.

(** [iou_loss(input, target, reduction)]; the two tensors are n x 4 and
    m x 4, so the assertion on the shapes compares [n] and [m]. *)
Definition iou_loss (input target : list Box) (reduction : Reduction)
  : option Loss :=
  if (length input =? length target)%nat then
    let loss := map (fun v => 1 - v) (completely_box_iou input target) in
    Some (match reduction with
          | Mean => Scalar (mean loss)
          | Sum => Scalar (sum_Q loss)
          | Unreduced => PerBox loss
          end)
  else None.

(** [compute_loss(box_pred, quality_pred, box_target, quality_target,
    device)], returning [(lbox + lqfl, loss.detach())].  [torch.stack]
    raises on operands of different shapes. *)
Definition compute_loss (box_pred : list Box) (quality_pred : list (list Q))
  (box_target : list Box) (quality_target : list nat * list Q)
  : option (Q * list Q) :=
  let loss := [0; 0] in
  match iou_loss box_pred box_target Mean with
  | Some (Scalar lbox) =>
      let lqfl :=
        0.4 * quality_focal_loss quality_pred quality_target
        / inject_Z (Z.of_nat (Nat.max (length box_target) 1)) in
      Some (lbox + lqfl, zip_with Qplus loss [lbox; lqfl])
  | Some (PerBox _) => None
  | None => None
  end.

(** [x[mask]] for a bool tensor [mask], which raises when the mask has not
    one entry per row of [x]. *)
Definition mask_index {X} (mask : list bool) (xs : list X) : option (list X) :=
  if (length mask =? length xs)%nat then Some (mask_select mask xs) else None.

(** [SimOTA.forward((pred, grid_mask, stride_mask), target)]: the loss
    and its detached parts, or the four tensors of the assignment. *)
Definition forward (pred : list (list Pred)) (target : list Target)
  (anchors : list Anchor) : M (Q * list Q + Assignment) :=
  a <- assign_batch log sigmoid binary_cross_entropy num_classes
         pred target anchors ;;
  if compute_loss_flag then
    let pred := concat pred in
    matched <- lift (mask_index (match_mask a) pred) ;;
    let box_pred := map p_box matched in
    let quality_pred := map p_scores pred in
    r <- lift (compute_loss box_pred quality_pred (box_target a)
                 (cls_target a, obj_target a)) ;;
    ret (inl r)
  else ret (inr a).

End Loss.

(** ** xnnc/xnnc_caffe.py: iid and register_shape *)

Module XnncCaffe.

Import String Ascii.
Local Open Scope string_scope.

(** [str(n)] of a Python int that is not negative. *)
Definition str (n : nat) : string :=
  DecimalString.NilEmpty.string_of_uint (Nat.to_uint n).

(** [iid(op_type)]: the name, and the module-level counter [__iid] after
    the call. *)
Definition iid (op_type : string) (__iid : nat) : string * nat :=
  let ret := op_type ++ "_" ++ str __iid in
  (ret, (__iid + 1)%nat).

(** Successive calls of [iid], as the loop over [graph.node] of [export]
    makes them for the nodes that are not constants. *)
Fixpoint iids (op_types : list string) (__iid : nat) : list string * nat :=
  match op_types with
  | [] => ([], __iid)
  | op_type :: rest =>
      let (name, next) := iid op_type __iid in
      let (names, last) := iids rest next in
      (name :: names, last)
  end.

(** A blob shape, [tuple(shape)]. *)
Definition Shape := list Z.

(** [shape_dict]: a dict from blob names to shapes, its keys in insertion
    order. *)
Definition ShapeDict := list (string * Shape).

(** [d[k]], [None] for a missing key. *)
Fixpoint lookup (d : ShapeDict) (k : string) : option Shape :=
  match d with
  | [] => None
  | (k', v) :: d' => if k' =? k then Some v else lookup d' k
  end.

(** [d[k] = v] *)
Fixpoint store (d : ShapeDict) (k : string) (v : Shape) : ShapeDict :=
  match d with
  | [] => [(k, v)]
  | (k', v') :: d' =>
      if k' =? k then (k', v) :: d' else (k', v') :: store d' k v
  end.

(** What [register_shape] uses of a layer: its two lists of blob names
    and its method [reshape], called without argument in input mode and
    with the shapes of the input blobs otherwise.  The method belongs to
    the layer classes; [None] stands for an exception it raises. *)
Record Layer := {
  output_names : list string;
  input_names : list string;
  reshape : option (list Shape) -> option (list Shape)
}.

Inductive Raised :=
| KeyError (key : string)
| AssertionError
| LayerError.

(** [[shape_dict[x] for x in input_names]] *)
Fixpoint bottom_shapes (shape_dict : ShapeDict) (input_names : list string)
  : Raised + list Shape :=
  match input_names with
  | [] => inr []
  | x :: rest =>
      match lookup shape_dict x with
      | None => inl (KeyError x)
      | Some shape =>
          match bottom_shapes shape_dict rest with
          | inl e => inl e
          | inr shapes => inr (shape :: shapes)
          end
      end
  end.

(** The loop [for blob, shape in zip(...): shape_dict[blob] = tuple(shape)]. *)
Definition store_all (shape_dict : ShapeDict) (blobs : list (string * Shape))
  : ShapeDict :=
  fold_left (fun d bs => store d (fst bs) (snd bs)) blobs shape_dict.

(** [register_shape(layer, shape_dict, input_mode)]: the exception
    raised, or [shape_dict] after the call. *)
Definition register_shape (layer : Layer) (shape_dict : ShapeDict)
  (input_mode : bool) : Raised + ShapeDict :=
  let finish (output_shapes : option (list Shape)) :=
    match output_shapes with
    | None => inl LayerError
    | Some output_shapes =>
        if (List.length (output_names layer) =? List.length output_shapes)%nat
        then inr (store_all shape_dict (combine (output_names layer) output_shapes))
        else inl AssertionError
    end in
  if input_mode then finish (reshape layer None)
  else
    match bottom_shapes shape_dict (input_names layer) with
    | inl e => inl e
    | inr shapes => finish (reshape layer (Some shapes))
    end.

End XnncCaffe.

(** ** nano/models/yolov5_cspdarknet_0_5x/model.py: Detect *)

Module Detect.

Section Detect.

(** [Tensor.sigmoid] *)
Variable sigmoid : Q -> Q.

(** [self.no], [self.na], [self.stride[i]] and [self.anchor_grid[i]] (one
    (w, h) pair per anchor) of the detection layer [i]. *)
Variable no : nat.
Variable na : nat.
Variable stride : Q.
Variable anchor_grid : list (Q * Q).

(** [Detect._make_grid(nx, ny)]: [grid[0, 0, y, x] = (x, y)]. *)
Definition _make_grid (nx ny : nat) : list (list (Q * Q)) :=
  map (fun yv =>
         map (fun xv => (inject_Z (Z.of_nat xv), inject_Z (Z.of_nat yv)))
             (seq 0 nx))
      (seq 0 ny).

(** Lines 135-137 on the [no] outputs of one anchor at one cell:
    [y = x.sigmoid()], then the slices [0:2] and [2:4] are overwritten. *)
Definition decode (x : list Q) (grid : Q * Q) (anchor : Q * Q) : list Q :=
  let y := map sigmoid x in
  let xy := [ (nth 0 y 0 * 2 - 0.5 + fst grid) * stride;
              (nth 1 y 0 * 2 - 0.5 + snd grid) * stride ] in
  let wh := [ (nth 2 y 0 * 2) ^ 2 * fst anchor;
              (nth 3 y 0 * 2) ^ 2 * snd anchor ] in
  xy ++ wh ++ skipn 4 y.

(** The inference branch of the loop body of [Detect.forward] for one
    image, after the convolution: [x] is the (na * no, ny, nx) output of
    [self.m[i]]; the result is [y.view(-1, no)], the rows of
    [x.view(na, no, ny, nx).permute(0, 2, 3, 1)] decoded. *)
Definition detect_layer (x : list (list (list Q))) : list (list Q) :=
  let ny := length (nth 0 x []) in
  let nx := length (nth 0 (nth 0 x []) []) in
  let grid := _make_grid nx ny in
  concat
    (map (fun a =>
            concat
              (map (fun yv =>
                      map (fun xv =>
                             decode
                               (map (fun o =>
                                       nth xv (nth yv (nth (a * no + o) x []) []) 0)
                                    (seq 0 no))
                               (nth xv (nth yv grid []) (0, 0))
                               (nth a anchor_grid (0, 0)))
                          (seq 0 nx))
                   (seq 0 ny)))
         (seq 0 na)).

End Detect.

End Detect.

(** ** nano/models/yolov5_cspdarknet_0_5x/model.py: Focus *)

Module Focus.

(** A convolution kernel, [weight[o][c][ky][kx]]. *)
Definition Weight := list (list (list (list Q))).

(** [torch.zeros(a, b, c, d)] *)
Definition zeros (a b c d : nat) : Weight :=
  repeat (repeat (repeat (repeat 0 d) c) b) a.

Definition get4 (weight : Weight) (o c ky kx : nat) : Q :=
  nth kx (nth ky (nth c (nth o weight []) []) []) 0.

(** [weight[o, c, ky, kx] = v], the four indices in range. *)
Definition set4 (weight : Weight) (o c ky kx : nat) (v : Q) : Weight :=
  let per_o := nth o weight [] in
  let per_c := nth c per_o [] in
  let per_ky := nth ky per_c [] in
  set_nth o (set_nth c (set_nth ky (set_nth kx v per_ky) per_c) per_o) weight.

(** The kernel [Focus._make_layer(c1)] gives to its convolution. *)
Definition _make_layer (c1 : nat) : Weight :=
  fold_left
    (fun weight c =>
       let weight := set4 weight (c + 0 * c1) c 0 0 1 in
       let weight := set4 weight (c + 1 * c1) c 1 0 1 in
       let weight := set4 weight (c + 2 * c1) c 0 1 1 in
       set4 weight (c + 3 * c1) c 1 1 1)
    (seq 0 c1)
    (zeros (c1 * 4) c1 2 2).

(** [torch.nn.Conv2d(c1, c2, 2, 2, bias=False)] with kernel [weight] on
    one image [x] of shape (c1, H, W): the cross-correlation with a 2 x 2
    window moved by steps of two.  torch raises when the image has not
    [c1] channels or is smaller than the window. *)
Definition conv2d (weight : Weight) (x : list (list (list Q)))
  : option (list (list (list Q))) :=
  let c1 := length (nth 0 weight []) in
  let H := length (nth 0 x []) in
  let W := length (nth 0 (nth 0 x []) []) in
  if ((length x =? c1) && (2 <=? H) && (2 <=? W))%nat then
    Some
      (map (fun o =>
              map (fun i =>
                     map (fun j =>
                            sum_Q
                              (map (fun c =>
                                      sum_Q
                                        (map (fun ky =>
                                                sum_Q
                                                  (map (fun kx =>
                                                          get4 weight o c ky kx
                                                          * nth (2 * j + kx)
                                                              (nth (2 * i + ky) (nth c x []) [])
                                                              0)
                                                       (seq 0 2)))
                                             (seq 0 2)))
                                   (seq 0 c1)))
                         (seq 0 (W / 2)))
                  (seq 0 (H / 2)))
           (seq 0 (length weight)))
  else None.

(** [self.focus(x)] in [Focus.forward], for the layer [Focus(c1, c2)]. *)
Definition focus (c1 : nat) (x : list (list (list Q)))
  : option (list (list (list Q))) :=
  conv2d (_make_layer c1) x.

End Focus.

(** ** nano/datasets/coco_box2d_visualize.py *)

Module Visualize.





End Visualize.

(** * Properties *)

(** ** Facts about the tensor primitives *)

Lemma Qlt_bool_iff x y : Qlt_bool x y = true <-> x < y.
Proof.
  unfold Qlt_bool. rewrite negb_true_iff. split.
  - intros H. apply Qnot_le_lt. intros Hle.
    apply Qle_bool_iff in Hle. congruence.
  - intros H. destruct (Qle_bool y x) eqn:E; [|reflexivity].
    apply Qle_bool_iff in E. exfalso. exact (Qlt_not_le _ _ H E).
Qed.

Lemma zip_with_length {X Y Z} (f : X -> Y -> Z) xs ys :
  length (zip_with f xs ys) = Nat.min (length xs) (length ys).
Proof. unfold zip_with. now rewrite length_map, length_combine. Qed.

Lemma zip_with_map {W X Y Z} (f : X -> Y -> Z) (g : W -> X) (h : W -> Y) l :
  zip_with f (map g l) (map h l) = map (fun w => f (g w) (h w)) l.
Proof.
  unfold zip_with. induction l as [|w l IH]; simpl; [reflexivity|].
  now rewrite IH.
Qed.

Lemma zip_with_nth {X Y Z} (f : X -> Y -> Z) xs ys i dx dy dz :
  (i < length xs)%nat -> (i < length ys)%nat ->
  nth i (zip_with f xs ys) dz = f (nth i xs dx) (nth i ys dy).
Proof.
  unfold zip_with. revert ys i.
  induction xs as [|x xs IH]; intros [|y ys] [|i] Hx Hy; simpl in *; try lia.
  - reflexivity.
  - apply IH; lia.
Qed.

Lemma mask_select_map {X Y} (f : X -> Y) mask xs :
  mask_select mask (map f xs) = map f (mask_select mask xs).
Proof.
  revert xs. induction mask as [|b mask IH]; intros [|x xs]; simpl; try reflexivity.
  destruct b; simpl; now rewrite IH.
Qed.

Lemma mask_select_length {X} mask (xs : list X) :
  length mask = length xs -> length (mask_select mask xs) = count_true mask.
Proof.
  unfold count_true. revert xs.
  induction mask as [|b mask IH]; intros [|x xs] H; simpl in *; try lia.
  destruct b; simpl; rewrite IH by lia; reflexivity.
Qed.

Lemma sum_b2n_pos l : (0 < sum_nat (map b2n l))%nat <-> In true l.
Proof.
  induction l as [|b l IH]; simpl.
  - split; [lia | tauto].
  - destruct b; simpl.
    + split; [auto | lia].
    + rewrite IH. split; [auto | intros [H|H]; [discriminate | assumption]].
Qed.

Lemma col_map_map {W X Y} (f : W -> X -> Y) (ws : list W) (xs : list X) i x d :
  nth_error xs i = Some x ->
  col d (map (fun w => map (f w) xs) ws) i = map (fun w => f w x) ws.
Proof.
  intros H. unfold col. rewrite map_map. apply map_ext. intros w.
  assert (Hi : (i < length xs)%nat) by (apply nth_error_Some; congruence).
  rewrite (nth_indep (map (f w) xs) d (f w x)) by (now rewrite length_map).
  rewrite (map_nth (f w) xs x i). f_equal. now apply nth_error_nth.
Qed.

Lemma nth_map_seq {X} (g : nat -> X) n i d :
  (i < n)%nat -> nth i (map g (seq 0 n)) d = g i.
Proof.
  intros H. rewrite (nth_indep _ d (g 0%nat)) by (now rewrite length_map, length_seq).
  rewrite (map_nth g (seq 0 n) 0%nat i). now rewrite seq_nth.
Qed.

Lemma Forall2_map_r {X Y} (R : X -> Y -> Prop) (f : X -> Y) l :
  (forall x, In x l -> R x (f x)) -> Forall2 R l (map f l).
Proof.
  induction l as [|x l IH]; intros H; simpl; constructor.
  - apply H. now left.
  - apply IH. intros y Hy. apply H. now right.
Qed.

(** ** center_sampling *)

Section CenterSamplingFacts.

Import CenterSampling.

Lemma in_box_iff t a : in_box t a = true <-> inside_box t a.
Proof.
  unfold in_box, inside_box, b_l, b_t, b_r, b_b.
  rewrite Qlt_bool_iff, !Q.min_glb_lt_iff. tauto.
Qed.

Lemma in_center_iff t a : in_center t a = true <-> inside_center t a.
Proof.
  unfold in_center, inside_center, c_x, c_y, bbox_xc, bbox_yc, center_radius.
  rewrite Qlt_bool_iff, Q.max_lub_lt_iff. tauto.
Qed.

Lemma any_rows_spec {W} (f : W -> Anchor -> bool) ws anchors i a :
  nth_error anchors i = Some a ->
  nth i (any_rows (length anchors) (map (fun w => map (f w) anchors) ws)) false = true
  <-> exists w, In w ws /\ f w a = true.
Proof.
  intros Ha. unfold any_rows.
  assert (Hi : (i < length anchors)%nat) by (apply nth_error_Some; congruence).
  rewrite nth_map_seq by assumption.
  erewrite col_map_map by exact Ha.
  rewrite Nat.ltb_lt, sum_b2n_pos, in_map_iff.
  split; intros [w Hw]; exists w; tauto.
Qed.

Lemma any_rows_length A (M : list (list bool)) : length (any_rows A M) = A.
Proof. unfold any_rows. now rewrite length_map, length_seq. Qed.

(** C7.  [center_sampling] returns a mask with one entry per anchor, set
    exactly at the anchors that are inside the box or inside the 2.5-stride
    centre window of some target, and a matrix with one row per target
    and one column per marked anchor, whose entry holds exactly when
    that anchor passes both tests for that target. *)
Theorem center_sampling_eligible (targets : list Target) (anchors : list Anchor) :
  let is_in_boxes_anchor := fst (center_sampling targets anchors) in
  let is_in_boxes_and_center := snd (center_sampling targets anchors) in
  length is_in_boxes_anchor = length anchors
  /\ (forall i a, nth_error anchors i = Some a ->
        (nth i is_in_boxes_anchor false = true
         <-> exists t, In t targets /\ (inside_box t a \/ inside_center t a)))
  /\ Forall2
       (fun t row =>
          Forall2 (fun a b => b = true <-> inside_box t a /\ inside_center t a)
                  (mask_select is_in_boxes_anchor anchors) row)
       targets is_in_boxes_and_center.
Proof.
  cbv zeta. unfold center_sampling. simpl fst. simpl snd.
  set (mask := zip_with orb _ _).
  assert (Hlen : length mask = length anchors).
  { unfold mask. rewrite zip_with_length, !any_rows_length. lia. }
  split; [exact Hlen|]. split.
  - intros i a Ha.
    assert (Hi : (i < length anchors)%nat) by (apply nth_error_Some; congruence).
    unfold mask.
    rewrite (zip_with_nth orb _ _ i false false false)
      by (now rewrite any_rows_length).
    rewrite orb_true_iff.
    unfold is_in_boxes, is_in_centers.
    rewrite (any_rows_spec in_box targets anchors i a Ha).
    rewrite (any_rows_spec in_center targets anchors i a Ha).
    split.
    + intros [[t [Ht Hb]]|[t [Ht Hc]]]; exists t; split; auto.
      * left. now apply in_box_iff.
      * right. now apply in_center_iff.
    + intros [t [Ht [Hb|Hc]]]; [left|right]; exists t; split; auto.
      * now apply in_box_iff.
      * now apply in_center_iff.
  - unfold select_cols, is_in_boxes, is_in_centers.
    rewrite !map_map. rewrite zip_with_map.
    apply Forall2_map_r. intros t _.
    rewrite !mask_select_map, zip_with_map.
    apply Forall2_map_r. intros a _.
    rewrite andb_true_iff, in_box_iff, in_center_iff. tauto.
Qed.

End CenterSamplingFacts.

(** ** Index arithmetic on masks and matrices *)

(** Entry [(t, p)] of a matrix of naturals. *)
Definition entry (M : list (list nat)) (t p : nat) : nat := nth p (nth t M []) 0%nat.

(** A matrix with [T] rows of [P] columns. *)
Definition shaped {X} (T P : nat) (M : list (list X)) : Prop :=
  length M = T /\ Forall (fun row => length row = P) M.

Lemma shaped_row {X} T P (M : list (list X)) t :
  shaped T P M -> (t < T)%nat -> length (nth t M []) = P.
Proof.
  intros [HT HP] Ht. rewrite Forall_forall in HP. apply HP, nth_In. lia.
Qed.

Lemma set_nth_length {X} i (v : X) l : length (set_nth i v l) = length l.
Proof.
  revert i. induction l as [|x l IH]; intros [|i]; simpl; auto.
Qed.

Lemma nth_set_nth {X} i j (v d : X) l :
  (i < length l)%nat ->
  nth i (set_nth j v l) d = if (i =? j)%nat then v else nth i l d.
Proof.
  revert i j. induction l as [|x l IH]; intros [|i] [|j] H; simpl in *; try lia; auto.
  apply IH. lia.
Qed.

Lemma col_as_seq {X} (d : X) (M : list (list X)) p :
  col d M p = map (fun t => nth p (nth t M []) d) (seq 0 (length M)).
Proof.
  unfold col. induction M as [|row M IH]; simpl; [reflexivity|].
  f_equal. rewrite <- seq_shift, map_map. exact IH.
Qed.

Lemma map_nth_seq {X Y} (g : X -> Y) (l : list X) d :
  map (fun j => g (nth j l d)) (seq 0 (length l)) = map g l.
Proof.
  induction l as [|x l IH]; simpl; [reflexivity|].
  f_equal. rewrite <- seq_shift, map_map. exact IH.
Qed.

Lemma count_true_zero m i : count_true m = 0%nat -> nth i m false = false.
Proof.
  unfold count_true. revert i.
  induction m as [|b m IH]; intros [|i] H; simpl in *; auto.
  - destruct b; simpl in H; [lia | reflexivity].
  - apply IH. destruct b; simpl in H; lia.
Qed.

Lemma In_mask_select {X} mask (l : list X) v :
  In v (mask_select mask l) -> In v l.
Proof.
  revert l. induction mask as [|b mask IH]; intros [|y l] H; simpl in *; try tauto.
  destruct b; simpl in H.
  - destruct H; [now left | right; now apply IH].
  - right. now apply IH.
Qed.

(** [row[mask]] lists the entries of [row] at the marked indices
    [nonzero(mask)]. *)
Lemma mask_select_as_indices {X} mask (row : list X) s d :
  length mask = length row ->
  mask_select mask row
  = map (fun p => nth (p - s) row d) (mask_select mask (seq s (length mask))).
Proof.
  revert row s. induction mask as [|b mask IH]; intros [|x row] s Hl;
    cbn [mask_select length seq map] in *; try lia; try reflexivity.
  assert (Hrest : mask_select mask row
                  = map (fun p => nth (p - s) (x :: row) d)
                        (mask_select mask (seq (S s) (length mask)))).
  { rewrite (IH row (S s)) by lia. apply map_ext_in. intros p Hp.
    apply In_mask_select, in_seq in Hp.
    replace (p - s)%nat with (S (p - S s)) by lia. reflexivity. }
  destruct b; cbn [map].
  - rewrite Nat.sub_diag. exact (f_equal (cons x) Hrest).
  - exact Hrest.
Qed.

Lemma In_nonzero mask n p :
  length mask = n ->
  In p (mask_select mask (seq 0 n)) <-> (p < n)%nat /\ nth p mask false = true.
Proof.
  intros Hl. subst n.
  assert (G : forall s, In p (mask_select mask (seq s (length mask)))
                        <-> (s <= p < s + length mask)%nat /\ nth (p - s) mask false = true).
  { induction mask as [|b mask IH]; intros s; simpl.
    - split; [tauto | lia].
    - destruct b; simpl; rewrite IH.
      + split.
        * intros [H|[H1 H2]].
          -- subst. rewrite Nat.sub_diag. split; [lia | reflexivity].
          -- split; [lia|]. replace (p - s)%nat with (S (p - S s)) by lia. exact H2.
        * intros [H1 H2]. destruct (Nat.eq_dec s p) as [E|E]; [now left | right].
          split; [lia|]. replace (p - s)%nat with (S (p - S s)) in H2 by lia. exact H2.
      + split.
        * intros [H1 H2]. split; [lia|].
          replace (p - s)%nat with (S (p - S s)) by lia. exact H2.
        * intros [H1 H2]. destruct (Nat.eq_dec s p) as [E|E].
          -- subst. rewrite Nat.sub_diag in H2. discriminate.
          -- split; [lia|]. replace (p - s)%nat with (S (p - S s)) in H2 by lia. exact H2. }
  rewrite G. rewrite Nat.sub_0_r. split; intros [H1 H2]; split; auto; lia.
Qed.

(** Column [j] of [M[:, mask]] is the column of [M] at the [j]-th marked
    index. *)
Lemma col_select_cols {X} (d : X) mask (M : list (list X)) P j :
  shaped (length M) P M -> length mask = P ->
  (j < count_true mask)%nat ->
  col d (select_cols mask M) j = col d M (nth j (mask_select mask (seq 0 P)) 0%nat).
Proof.
  intros [_ HP] Hm Hj. unfold col, select_cols. rewrite map_map.
  apply map_ext_in. intros row Hrow. rewrite Forall_forall in HP.
  specialize (HP row Hrow).
  rewrite (mask_select_as_indices mask row 0 d) by lia.
  rewrite Hm.
  set (cols := mask_select mask (seq 0 P)).
  assert (Hc : length cols = count_true mask).
  { unfold cols. apply mask_select_length. now rewrite length_seq. }
  rewrite (nth_indep _ d ((fun p => nth (p - 0) row d) 0%nat))
    by (rewrite length_map; lia).
  rewrite (map_nth (fun p => nth (p - 0) row d) cols 0%nat j).
  now rewrite Nat.sub_0_r.
Qed.

Lemma mask_scatter_length {X} mask (dst vals : list X) :
  length (mask_scatter mask dst vals) = length dst.
Proof.
  revert dst vals. induction mask as [|b mask IH]; intros [|d dst] vals; simpl; auto.
  - now destruct b.
  - destruct b; [destruct vals|]; simpl; now rewrite IH.
Qed.

(** [row[mask] = f(row[mask])], entry by entry. *)
Lemma nth_scatter_map_select {X} (f : X -> X) mask row p d :
  length mask = length row ->
  nth p (mask_scatter mask row (map f (mask_select mask row))) d
  = if nth p mask false then f (nth p row d) else nth p row d.
Proof.
  revert row p. induction mask as [|b mask IH]; intros [|x row] p Hl;
    simpl in *; try lia.
  - now destruct p.
  - destruct b; simpl; destruct p as [|p]; try reflexivity; apply IH; lia.
Qed.

Lemma set_nth_out {X} i (v : X) l : (length l <= i)%nat -> set_nth i v l = l.
Proof.
  revert i. induction l as [|x l IH]; intros [|i] H; simpl in *; try lia; auto.
  f_equal. apply IH. lia.
Qed.

Lemma Forall_set_nth {X} (Q : X -> Prop) i v l :
  Forall Q l -> Q v -> Forall Q (set_nth i v l).
Proof.
  intros Hl Hv. revert i. induction Hl as [|x l Hx Hl IH]; intros [|i]; simpl;
    constructor; auto.
Qed.

Lemma set_entry_shaped T P M t p v :
  shaped T P M -> shaped T P (set_entry M t p v).
Proof.
  intros HM. destruct (Nat.lt_ge_cases t T) as [Ht|Ht].
  - destruct HM as [HT HP]. split.
    + unfold set_entry. now rewrite set_nth_length.
    + apply Forall_set_nth; [exact HP|].
      rewrite set_nth_length. apply (shaped_row T P M t (conj HT HP) Ht).
  - unfold set_entry. rewrite set_nth_out; [exact HM|]. destruct HM. lia.
Qed.

Lemma entry_set_entry T P M t' p' v t p :
  shaped T P M -> (t < T)%nat -> (p < P)%nat ->
  entry (set_entry M t' p' v) t p
  = if ((t =? t') && (p =? p'))%nat then v else entry M t p.
Proof.
  intros HM Ht Hp. unfold entry, set_entry.
  rewrite nth_set_nth by (destruct HM; lia).
  destruct (Nat.eqb_spec t t') as [E|E]; simpl; [|reflexivity].
  subst t'. apply nth_set_nth. now rewrite (shaped_row T P M t HM Ht).
Qed.

Lemma fold_set_entry_shaped T P (pairs : list (nat * nat)) M :
  shaped T P M ->
  shaped T P (fold_left (fun M tp => set_entry M (fst tp) (snd tp) 1%nat) pairs M).
Proof.
  revert M. induction pairs as [|[t p] pairs IH]; intros M HM; simpl; [exact HM|].
  apply IH. now apply set_entry_shaped.
Qed.

Lemma fold_set_entry T P (amin : nat -> nat) cols M t p :
  shaped T P M -> (t < T)%nat -> (p < P)%nat ->
  let M' := fold_left (fun M tp => set_entry M (fst tp) (snd tp) 1%nat)
              (map (fun q => (amin q, q)) cols) M in
  shaped T P M'
  /\ entry M' t p
     = if existsb (fun q => ((q =? p) && (amin q =? t))%nat) cols then 1%nat
       else entry M t p.
Proof.
  intros HM Ht Hp. revert M HM.
  induction cols as [|q cols IH]; intros M HM; simpl.
  - split; [exact HM | reflexivity].
  - destruct (IH (set_entry M (amin q) q 1%nat)
                 (set_entry_shaped T P M (amin q) q 1%nat HM)) as [HS HE].
    split; [exact HS|]. simpl in HE. rewrite HE.
    rewrite (entry_set_entry T P M (amin q) q 1%nat t p HM Ht Hp).
    destruct (existsb _ cols);
      destruct (Nat.eqb_spec q p), (Nat.eqb_spec (amin q) t),
               (Nat.eqb_spec t (amin q)), (Nat.eqb_spec p q);
      simpl; try reflexivity; congruence.
Qed.

Lemma argmin_from_bound best ibest i xs :
  (ibest < i)%nat -> (argmin_from best ibest i xs < i + length xs)%nat.
Proof.
  revert best ibest i. induction xs as [|x xs IH]; intros best ibest i H; simpl.
  - lia.
  - destruct (Qlt_bool x best).
    + specialize (IH x i (S i)). lia.
    + specialize (IH best ibest (S i)). lia.
Qed.

Lemma argmin_bound xs : xs <> [] -> (argmin xs < length xs)%nat.
Proof.
  destruct xs as [|x xs]; [congruence|]. intros _. simpl.
  apply (argmin_from_bound x 0 1 xs). lia.
Qed.



Lemma sum_nat_indicator a T :
  sum_nat (map (fun t => if (a =? t)%nat then 1%nat else 0%nat) (seq 0 T))
  = if (a <? T)%nat then 1%nat else 0%nat.
Proof.
  induction T as [|T IH].
  - reflexivity.
  - rewrite seq_S, map_app. simpl.
    assert (Happ : forall l1 l2, sum_nat (l1 ++ l2) = (sum_nat l1 + sum_nat l2)%nat).
    { induction l1 as [|x l1 IHl]; intros l2; simpl; [reflexivity|].
      rewrite IHl. lia. }
    rewrite Happ, IH. simpl.
    destruct (Nat.ltb_spec a T), (Nat.eqb_spec a T), (Nat.ltb_spec a (S T)); lia.
Qed.

Lemma col_sum_entries M p :
  sum_nat (col 0%nat M p) = sum_nat (map (fun t => entry M t p) (seq 0 (length M))).
Proof. now rewrite col_as_seq. Qed.

(** ** Conflict resolution ([purge]) *)

Lemma combine_map_l {X Y} (f : X -> Y) l :
  combine (map f l) l = map (fun x => (f x, x)) l.
Proof. induction l as [|x l IH]; simpl; [reflexivity | now rewrite IH]. Qed.

Lemma col_sums_length P M : length (col_sums P M) = P.
Proof. unfold col_sums. now rewrite length_map, length_seq. Qed.

Lemma nth_col_sums P M p d :
  (p < P)%nat -> nth p (col_sums P M) d = sum_nat (col 0%nat M p).
Proof. intros H. unfold col_sums. now rewrite nth_map_seq. Qed.

Lemma nth_map_in {X Y} (f : X -> Y) l i dx dy :
  (i < length l)%nat -> nth i (map f l) dy = f (nth i l dx).
Proof.
  intros H. rewrite (nth_indep _ dy (f dx)) by (now rewrite length_map).
  apply map_nth.
Qed.

(** The matching matrix after the purge, entry by entry: a column claimed
    by more than one target keeps a single one, at the first row of
    minimum cost; every other column is untouched. *)
Lemma purge_spec T P cost M :
  shaped T P cost -> shaped T P M ->
  shaped T P (purge P cost M)
  /\ forall t p, (t < T)%nat -> (p < P)%nat ->
       entry (purge P cost M) t p
       = if (1 <? sum_nat (col 0%nat M p))%nat
         then (if (argmin (col 0%Q cost p) =? t)%nat then 1%nat else 0%nat)
         else entry M t p.
Proof.
  intros Hcost HM. unfold purge.
  set (dup := map (fun s => (1 <? s)%nat) (col_sums P M)).
  assert (Hdup : length dup = P) by (unfold dup; now rewrite length_map, col_sums_length).
  assert (Hnth : forall p, (p < P)%nat ->
                   nth p dup false = (1 <? sum_nat (col 0%nat M p))%nat).
  { intros p Hp. unfold dup.
    rewrite (nth_map_in _ _ p 0%nat false) by (now rewrite col_sums_length).
    now rewrite nth_col_sums. }
  destruct (0 <? count_true dup)%nat eqn:Hany.
  - set (cols := mask_select dup (seq 0 P)).
    set (amin := fun p => argmin (col 0%Q cost p)).
    assert (Hargmin : map (fun j => argmin (col 0%Q (select_cols dup cost) j))
                          (seq 0 (count_true dup)) = map amin cols).
    { assert (Hc : length cols = count_true dup).
      { unfold cols. apply mask_select_length. now rewrite length_seq. }
      rewrite <- Hc, <- (map_nth_seq amin cols 0%nat).
      apply map_ext_in. intros j Hj. apply in_seq in Hj. unfold amin. f_equal.
      apply col_select_cols; [|exact Hdup|lia].
      destruct Hcost as [HT HP]. split; [reflexivity | exact HP]. }
    rewrite Hargmin, combine_map_l.
    set (cleared := map _ M).
    assert (Hcl : shaped T P cleared).
    { destruct HM as [HT HP]. split.
      - unfold cleared. now rewrite length_map.
      - unfold cleared. rewrite Forall_map. apply Forall_impl with (2 := HP).
        intros row Hrow. now rewrite mask_scatter_length. }
    assert (Hce : forall t p, (t < T)%nat -> (p < P)%nat ->
                    entry cleared t p
                    = if nth p dup false then 0%nat else entry M t p).
    { intros t p Ht Hp. unfold entry, cleared.
      rewrite (nth_map_in _ M t [] []) by (destruct HM; lia).
      rewrite nth_scatter_map_select
        by (rewrite (shaped_row T P M t HM Ht); exact Hdup).
      destruct (nth p dup false); [lia | reflexivity]. }
    split.
    + now apply fold_set_entry_shaped.
    + intros t p Ht Hp.
      destruct (fold_set_entry T P amin cols cleared t p Hcl Ht Hp) as [_ HE].
      simpl in HE. rewrite HE, (Hce t p Ht Hp), <- (Hnth p Hp).
      destruct (existsb _ cols) eqn:Hex.
      * apply existsb_exists in Hex. destruct Hex as [q [Hq Heq]].
        apply andb_true_iff in Heq. destruct Heq as [E1 E2].
        apply Nat.eqb_eq in E1. subst q.
        apply (In_nonzero dup P p Hdup) in Hq. destruct Hq as [_ Hq].
        rewrite Hq. unfold amin in E2. now rewrite E2.
      * destruct (nth p dup false) eqn:Hd; [|reflexivity].
        destruct (Nat.eqb_spec (argmin (col 0%Q cost p)) t) as [E|E]; [|reflexivity].
        exfalso. assert (Hin : In p cols).
        { apply (In_nonzero dup P p Hdup). split; assumption. }
        assert (Hex' : existsb (fun q => ((q =? p) && (amin q =? t))%nat) cols = true).
        { apply existsb_exists. exists p. split; [exact Hin|].
          unfold amin. rewrite E, !Nat.eqb_refl. reflexivity. }
        congruence.
  - split; [exact HM|]. intros t p Ht Hp.
    rewrite <- (Hnth p Hp), count_true_zero; [reflexivity|].
    apply Nat.ltb_ge in Hany. lia.
Qed.

(** After the purge a column sums to one where it summed to more than one,
    and is unchanged elsewhere. *)
Lemma purge_col_sum T P cost M p :
  shaped T P cost -> shaped T P M -> (p < P)%nat ->
  sum_nat (col 0%nat (purge P cost M) p)
  = if (1 <? sum_nat (col 0%nat M p))%nat then 1%nat else sum_nat (col 0%nat M p).
Proof.
  intros Hcost HM Hp.
  destruct (purge_spec T P cost M Hcost HM) as [[HT' HP'] HE].
  rewrite col_sum_entries, HT'.
  destruct (1 <? sum_nat (col 0%nat M p))%nat eqn:Hd.
  - rewrite (map_ext_in _ (fun t => if (argmin (col 0%Q cost p) =? t)%nat
                                    then 1%nat else 0%nat)).
    + rewrite sum_nat_indicator.
      assert (HT : (0 < T)%nat).
      { destruct T; [|lia]. destruct HM as [HM _].
        apply length_zero_iff_nil in HM. subst M. simpl in Hd. discriminate. }
      assert (Hb : (argmin (col 0%Q cost p) < T)%nat).
      { destruct Hcost as [HcT _].
        replace T with (length (col 0%Q cost p)) by (unfold col; now rewrite length_map).
        apply argmin_bound. intros E. apply (f_equal (@length Q)) in E.
        unfold col in E. rewrite length_map in E. simpl in E. lia. }
      apply Nat.ltb_lt in Hb. now rewrite Hb.
    + intros t Ht. apply in_seq in Ht. rewrite HE by lia. now rewrite Hd.
  - destruct HM as [HT HP]. rewrite col_sum_entries, HT.
    f_equal. apply map_ext_in. intros t Ht. apply in_seq in Ht.
    rewrite HE by lia. now rewrite Hd.
Qed.

(** ** Shapes of the intermediate matrices *)

Lemma map_opt_length {X Y} (f : X -> option Y) xs ys :
  map_opt f xs = Some ys -> length ys = length xs.
Proof.
  revert ys. induction xs as [|x xs IH]; intros ys H; simpl in H.
  - now inversion H.
  - destruct (f x); [|discriminate]. destruct (map_opt f xs); [|discriminate].
    inversion H. simpl. f_equal. now apply IH.
Qed.

Lemma map_opt_Forall2 {X Y} (f : X -> option Y) xs ys :
  map_opt f xs = Some ys -> Forall2 (fun x y => f x = Some y) xs ys.
Proof.
  revert ys. induction xs as [|x xs IH]; intros ys H; simpl in H.
  - inversion H. constructor.
  - destruct (f x) eqn:E; [|discriminate].
    destruct (map_opt f xs); [|discriminate].
    inversion H. constructor; auto.
Qed.

Lemma shaped_zip_with {X Y Z} (f : X -> Y -> Z) T P A B :
  shaped T P A -> shaped T P B -> shaped T P (zip_with (zip_with f) A B).
Proof.
  intros [HA1 HA2] [HB1 HB2]. split.
  - rewrite zip_with_length. lia.
  - unfold zip_with at 1. rewrite Forall_map, Forall_forall. intros [a b] Hab.
    simpl. rewrite zip_with_length.
    rewrite Forall_forall in HA2, HB2.
    rewrite (HA2 a (in_combine_l _ _ _ _ Hab)), (HB2 b (in_combine_r _ _ _ _ Hab)).
    lia.
Qed.

Lemma shaped_map_map {X Y} (f : X -> Y) T P A :
  shaped T P A -> shaped T P (map (map f) A).
Proof.
  intros [H1 H2]. split.
  - now rewrite length_map.
  - rewrite Forall_map. apply Forall_impl with (2 := H2).
    intros row Hrow. now rewrite length_map.
Qed.

Lemma shaped_map_rows {W X Y} (g : W -> X -> Y) ws xs :
  shaped (length ws) (length xs) (map (fun w => map (g w) xs) ws).
Proof.
  split.
  - now rewrite length_map.
  - rewrite Forall_map, Forall_forall. intros w _. now rewrite length_map.
Qed.

Lemma index_put_length {X} (row : list X) idx v :
  length (index_put row idx v) = length row.
Proof.
  unfold index_put. revert row.
  induction idx as [|i idx IH]; intros row; simpl; [reflexivity|].
  now rewrite IH, set_nth_length.
Qed.

Lemma select_topk_shaped P cost ks sel :
  select_topk P cost ks = Some sel ->
  shaped (Nat.min (length cost) (length ks)) P sel.
Proof.
  unfold select_topk. intros H. split.
  - rewrite (map_opt_length _ _ _ H). apply length_combine.
  - apply map_opt_Forall2 in H. clear -H.
    induction H as [|[c k] row l sel Hrow _ IH]; constructor; [|exact IH].
    unfold select_row in Hrow. simpl in Hrow.
    destruct (topk_smallest (Z.to_nat k) c); [|discriminate].
    inversion Hrow. now rewrite index_put_length, repeat_length.
Qed.

Section Shapes.

Variables (log sigmoid : Q -> Q) (binary_cross_entropy : Q -> Q -> Q).
Variable num_classes : nat.



(** What a successful run of [dynamic_topk] went through. *)
Lemma dynamic_topk_inv input target in_box in_box_center s r s' :
  dynamic_topk log sigmoid binary_cross_entropy num_classes
    input target in_box in_box_center s = Some (r, s') ->
  let paired := mask_select in_box input in
  let P := length paired in
  let iou := pair_wise_iou target paired in
  exists cost tk selected,
    build_cost log sigmoid binary_cross_entropy num_classes target paired in_box_center
    = Some cost
    /\ top_ious P iou = Some tk
    /\ select_topk P cost (map dynamic_k tk) = Some selected
    /\ r = collect P iou (purge P cost selected)
    /\ s' = sum_Q (map sum_Q tk) / inject_Z (Z.of_nat (length target)).
Proof.
  unfold dynamic_topk, bind, lift, put, ret. intros H. cbv zeta.
  destruct (build_cost _ _ _ _ _ _ _) as [cost|]; [|discriminate].
  destruct (top_ious _ _) as [tk|]; [|discriminate].
  destruct (select_topk _ _ _) as [selected|] eqn:Hsel; [|discriminate].
  inversion H. exists cost, tk, selected. auto.
Qed.

End Shapes.

(** ** One target per anchor *)






(** Entries of the matrix the selection loop builds are zero or one. *)
Lemma index_put_01 row idx :
  Forall (fun v => v <= 1)%nat row ->
  Forall (fun v => v <= 1)%nat (index_put row idx 1%nat).
Proof.
  unfold index_put. revert row.
  induction idx as [|i idx IH]; intros row H; simpl; [exact H|].
  apply IH. apply Forall_set_nth; [exact H | lia].
Qed.

Lemma select_topk_01 P cost ks sel :
  select_topk P cost ks = Some sel ->
  Forall (Forall (fun v => v <= 1)%nat) sel.
Proof.
  unfold select_topk. intros H. apply map_opt_Forall2 in H.
  induction H as [|[c k] row l sel Hrow _ IH]; constructor; [|exact IH].
  unfold select_row in Hrow. simpl in Hrow.
  destruct (topk_smallest (Z.to_nat k) c); [|discriminate].
  inversion Hrow. apply index_put_01.
  apply Forall_forall. intros v Hv. apply repeat_spec in Hv. lia.
Qed.

Lemma entry_01 T P M t p :
  shaped T P M -> Forall (Forall (fun v => v <= 1)%nat) M ->
  (t < T)%nat -> (p < P)%nat -> (entry M t p <= 1)%nat.
Proof.
  intros HM H01 Ht Hp. unfold entry.
  rewrite Forall_forall in H01.
  assert (Hrow : In (nth t M []) M) by (apply nth_In; destruct HM; lia).
  specialize (H01 _ Hrow). rewrite Forall_forall in H01.
  apply H01, nth_In. now rewrite (shaped_row T P M t HM Ht).
Qed.

Lemma purge_entry_01 T P cost M t p :
  shaped T P cost -> shaped T P M ->
  Forall (Forall (fun v => v <= 1)%nat) M ->
  (t < T)%nat -> (p < P)%nat -> (entry (purge P cost M) t p <= 1)%nat.
Proof.
  intros Hc HM H01 Ht Hp.
  destruct (purge_spec T P cost M Hc HM) as [_ HE]. rewrite (HE t p Ht Hp).
  destruct (1 <? _)%nat.
  - destruct (_ =? _)%nat; lia.
  - now apply (entry_01 T P).
Qed.

Lemma nth_col M t p :
  (t < length M)%nat -> nth t (col 0%nat M p) 0%nat = entry M t p.
Proof.
  intros H. unfold col, entry.
  exact (nth_map_in (fun row => nth p row 0%nat) M t [] 0%nat H).
Qed.



Section OneTargetPerAnchor.

Variables (log sigmoid : Q -> Q) (binary_cross_entropy : Q -> Q -> Q).
Variable num_classes : nat.



End OneTargetPerAnchor.

(** ** The top-k primitives *)













(** ** The selection loop *)








(** ** Range of the IoU and of the dynamic k *)

Lemma box_iou_range a b :
  proper_box a -> proper_box b -> 0 <= box_iou a b <= 1.
Proof.
  intros [Hax Hay] [Hbx Hby]. unfold box_iou, box_union, box_inter, box_area.
  set (W := Qmax 0 (Qmin (x2 a) (x2 b) - Qmax (x1 a) (x1 b))).
  set (H := Qmax 0 (Qmin (y2 a) (y2 b) - Qmax (y1 a) (y1 b))).
  assert (HW0 : 0 <= W) by apply Q.le_max_l.
  assert (HH0 : 0 <= H) by apply Q.le_max_l.
  assert (HWa : W <= x2 a - x1 a).
  { apply Q.max_lub; [lra|].
    pose proof (Q.le_min_l (x2 a) (x2 b)). pose proof (Q.le_max_l (x1 a) (x1 b)). lra. }
  assert (HWb : W <= x2 b - x1 b).
  { apply Q.max_lub; [lra|].
    pose proof (Q.le_min_r (x2 a) (x2 b)). pose proof (Q.le_max_r (x1 a) (x1 b)). lra. }
  assert (HHa : H <= y2 a - y1 a).
  { apply Q.max_lub; [lra|].
    pose proof (Q.le_min_l (y2 a) (y2 b)). pose proof (Q.le_max_l (y1 a) (y1 b)). lra. }
  assert (HHb : H <= y2 b - y1 b).
  { apply Q.max_lub; [lra|].
    pose proof (Q.le_min_r (y2 a) (y2 b)). pose proof (Q.le_max_r (y1 a) (y1 b)). lra. }
  assert (Hinter : 0 <= W * H) by (apply Qmult_le_0_compat; assumption).
  assert (Hia : W * H <= (x2 a - x1 a) * (y2 a - y1 a)).
  { apply Qle_trans with (W * (y2 a - y1 a)).
    - rewrite (Qmult_comm W H), (Qmult_comm W (y2 a - y1 a)).
      apply Qmult_le_compat_r; assumption.
    - apply Qmult_le_compat_r; [assumption | lra]. }
  assert (Hib : W * H <= (x2 b - x1 b) * (y2 b - y1 b)).
  { apply Qle_trans with (W * (y2 b - y1 b)).
    - rewrite (Qmult_comm W H), (Qmult_comm W (y2 b - y1 b)).
      apply Qmult_le_compat_r; assumption.
    - apply Qmult_le_compat_r; [assumption | lra]. }
  assert (Hareaa : 0 < (x2 a - x1 a) * (y2 a - y1 a))
    by (apply Qmult_lt_0_compat; lra).
  assert (Hunion : 0 < (x2 a - x1 a) * (y2 a - y1 a) + (x2 b - x1 b) * (y2 b - y1 b) - W * H)
    by lra.
  split.
  - apply Qle_shift_div_l; [exact Hunion | lra].
  - apply Qle_shift_div_r; [exact Hunion | lra].
Qed.







Lemma Forall2_nth {X Y} (R : X -> Y -> Prop) l1 l2 i d1 d2 :
  Forall2 R l1 l2 -> (i < length l1)%nat -> R (nth i l1 d1) (nth i l2 d2).
Proof.
  intros H. revert i. induction H as [|x y l1 l2 Hxy _ IH]; intros [|i] Hi;
    simpl in *; try lia; auto. apply IH. lia.
Qed.



Lemma pair_wise_iou_le_1 target paired :
  Forall (fun t => proper_box (t_box t)) target ->
  Forall (fun p => proper_box (p_box p)) paired ->
  Forall (Forall (fun v => 0 <= v <= 1)) (pair_wise_iou target paired).
Proof.
  intros Ht Hp. unfold pair_wise_iou. rewrite Forall_map.
  apply Forall_impl with (2 := Ht). intros t Hpt. rewrite Forall_map.
  apply Forall_impl with (2 := Hp). intros p Hpp. now apply box_iou_range.
Qed.


(** ** The cost matrix *)

Lemma nth_zip_matrix {X Y Z} (f : X -> Y -> Z) T P A B t p dx dy dz :
  shaped T P A -> shaped T P B -> (t < T)%nat -> (p < P)%nat ->
  nth p (nth t (zip_with (zip_with f) A B) []) dz
  = f (nth p (nth t A []) dx) (nth p (nth t B []) dy).
Proof.
  intros HA HB Ht Hp.
  rewrite (zip_with_nth (zip_with f) A B t [] [] [])
    by (destruct HA, HB; lia).
  apply zip_with_nth.
  - now rewrite (shaped_row T P A t HA Ht).
  - now rewrite (shaped_row T P B t HB Ht).
Qed.

Lemma nth_map_matrix {X Y} (f : X -> Y) T P A t p dx dy :
  shaped T P A -> (t < T)%nat -> (p < P)%nat ->
  nth p (nth t (map (map f) A) []) dy = f (nth p (nth t A []) dx).
Proof.
  intros HA Ht Hp.
  rewrite (nth_map_in (map f) A t [] []) by (destruct HA; lia).
  apply nth_map_in. now rewrite (shaped_row T P A t HA Ht).
Qed.

Lemma nth_map_rows {W X Y} (g : W -> X -> Y) ws xs t p w x dy :
  nth_error ws t = Some w -> nth_error xs p = Some x ->
  nth p (nth t (map (fun w => map (g w) xs) ws) []) dy = g w x.
Proof.
  intros Hw Hx.
  assert (Ht : (t < length ws)%nat) by (apply nth_error_Some; congruence).
  assert (Hp : (p < length xs)%nat) by (apply nth_error_Some; congruence).
  rewrite (nth_map_in (fun w => map (g w) xs) ws t w []) by exact Ht.
  rewrite (nth_map_in (g (nth t ws w)) xs p x dy) by exact Hp.
  now rewrite (nth_error_nth _ _ w Hw), (nth_error_nth _ _ x Hx).
Qed.

Section CostFacts.

Variables (log sigmoid : Q -> Q) (binary_cross_entropy : Q -> Q -> Q).
Variable num_classes : nat.

(** The cost of one (target, candidate) pair in the words of the
    specification: binary cross-entropy between the one-hot class vector
    and the sigmoid scores, summed over the classes, plus three times
    [-log(IoU + 1e-8)], plus [1e5] when the pair fails the
    inside-box-and-center test. *)
Definition spec_cost (t : Target) (p : Pred) (in_box_and_center : bool) : Q :=
  sum_Q (map (fun c => binary_cross_entropy
                         (sigmoid (nth c (p_scores p) 0))
                         (if (c =? t_cls t)%nat then 1 else 0))
             (seq 0 num_classes))
  + 3 * - log (box_iou (t_box t) (p_box p) + 1e-8)
  + (if in_box_and_center then 0 else 100000).

Lemma one_hot_inv c v :
  one_hot num_classes c = Some v ->
  (c < num_classes)%nat
  /\ v = map (fun i => if (i =? c)%nat then 1 else 0) (seq 0 num_classes).
Proof.
  unfold one_hot. destruct (Nat.ltb_spec c num_classes) as [Hlt|Hge]; [|discriminate].
  intros E. inversion E. auto.
Qed.

Lemma cls_loss_entry (scores : list Q) c :
  length scores = num_classes ->
  zip_with binary_cross_entropy (map sigmoid scores)
    (map (fun i => if (i =? c)%nat then 1 else 0) (seq 0 num_classes))
  = map (fun i => binary_cross_entropy (sigmoid (nth i scores 0))
                    (if (i =? c)%nat then 1 else 0))
        (seq 0 num_classes).
Proof.
  intros H. rewrite <- (map_nth_seq sigmoid scores 0), H.
  apply zip_with_map.
Qed.

(** C6.  Every entry of the cost matrix is the classification cost plus
    three times the localisation cost plus the penalty, as the
    specification writes it; the argument of the logarithm is at least
    [1e-8] for well-formed boxes, an IoU of zero included. *)
Theorem cost_matrix_entry target paired in_box_center cost t p tgt prd :
  build_cost log sigmoid binary_cross_entropy num_classes target paired in_box_center
  = Some cost ->
  shaped (length target) (length paired) in_box_center ->
  Forall (fun q => length (p_scores q) = num_classes) paired ->
  nth_error target t = Some tgt ->
  nth_error paired p = Some prd ->
  nth p (nth t cost []) 0 == spec_cost tgt prd (nth p (nth t in_box_center []) false)
  /\ (proper_box (t_box tgt) -> proper_box (p_box prd) ->
      1e-8 <= box_iou (t_box tgt) (p_box prd) + 1e-8).
Proof.
  intros Hcost Hibc Hw Htgt Hprd.
  assert (Ht : (t < length target)%nat) by (apply nth_error_Some; congruence).
  assert (Hp : (p < length paired)%nat) by (apply nth_error_Some; congruence).
  split.
  - unfold build_cost in Hcost.
    destruct (map_opt _ target) as [cls_target|] eqn:E; [|discriminate].
    inversion Hcost as [Hc]. clear Hcost.
    pose proof (map_opt_length _ _ _ E) as Hlen.
    pose proof (map_opt_Forall2 _ _ _ E) as HF.
    pose proof (Forall2_nth _ _ _ t tgt [] HF Ht) as Hone.
    rewrite (nth_error_nth _ _ tgt Htgt) in Hone.
    destruct (one_hot_inv _ _ Hone) as [Hcls Hvec].
    assert (Hcl : shaped (length target) (length paired)
                    (pair_wise_cls_loss sigmoid binary_cross_entropy cls_target paired)).
    { unfold pair_wise_cls_loss. rewrite <- Hlen. apply shaped_map_rows. }
    assert (Hil : shaped (length target) (length paired)
                    (map (map (Qmult 3.0))
                       (pair_wise_iou_loss log (pair_wise_iou target paired)))).
    { apply shaped_map_map. unfold pair_wise_iou_loss. apply shaped_map_map.
      unfold pair_wise_iou. apply shaped_map_rows. }
    unfold cost_matrix.
    rewrite (nth_zip_matrix Qplus (length target) (length paired) _ _ t p 0 0 0);
      [| now apply shaped_zip_with | now apply shaped_map_map | exact Ht | exact Hp].
    rewrite (nth_zip_matrix Qplus (length target) (length paired) _ _ t p 0 0 0
               Hcl Hil Ht Hp).
    rewrite (nth_map_matrix _ (length target) (length paired) in_box_center t p
               false 0 Hibc Ht Hp).
    rewrite (nth_map_matrix (Qmult 3.0) (length target) (length paired) _ t p 0 0);
      [| unfold pair_wise_iou_loss; apply shaped_map_map; unfold pair_wise_iou;
         apply shaped_map_rows | exact Ht | exact Hp].
    unfold pair_wise_iou_loss.
    rewrite (nth_map_matrix _ (length target) (length paired) _ t p 0 0);
      [| unfold pair_wise_iou; apply shaped_map_rows | exact Ht | exact Hp].
    unfold pair_wise_iou.
    rewrite (nth_map_rows (fun t p => box_iou (t_box t) (p_box p)) target paired
               t p tgt prd 0 Htgt Hprd).
    unfold pair_wise_cls_loss.
    assert (Hvt : nth_error cls_target t = Some (nth t cls_target [])).
    { apply nth_error_nth'. lia. }
    rewrite (nth_map_rows
               (fun onehot p => sum_Q (zip_with binary_cross_entropy
                                         (map sigmoid (p_scores p)) onehot))
               cls_target paired t p _ prd 0 Hvt Hprd).
    rewrite Hvec.
    rewrite Forall_forall in Hw.
    rewrite (cls_loss_entry (p_scores prd) (t_cls tgt)
               (Hw prd (nth_error_In _ _ Hprd))).
    unfold spec_cost.
    destruct (nth p (nth t in_box_center []) false); simpl negb; unfold b2q; ring.
  - intros Hpt Hpp. destruct (box_iou_range _ _ Hpt Hpp) as [H0 _]. lra.
Qed.

End CostFacts.

(** ** One image *)

Lemma center_sampling_mask_length targets anchors :
  length (fst (CenterSampling.center_sampling targets anchors)) = length anchors.
Proof.
  unfold CenterSampling.center_sampling. simpl fst.
  rewrite zip_with_length, !any_rows_length. lia.
Qed.




Lemma count_true_scatter mask vals :
  length vals = count_true mask ->
  count_true (mask_scatter mask mask vals) = count_true vals.
Proof.
  unfold count_true. revert vals.
  induction mask as [|b mask IH]; intros vals H; simpl in *.
  - destruct vals; simpl in *; [reflexivity | lia].
  - destruct b; simpl in *.
    + destruct vals as [|v vals]; simpl in *; [lia|].
      f_equal. apply IH. lia.
    + apply IH. exact H.
Qed.

Lemma mask_select_scatter {X} mask (dst vals : list X) :
  length dst = length mask -> length vals = count_true mask ->
  mask_select mask (mask_scatter mask dst vals) = vals.
Proof.
  unfold count_true. revert dst vals.
  induction mask as [|b mask IH]; intros [|d dst] vals Hd Hv; simpl in *; try lia.
  - destruct vals; simpl in *; [reflexivity | lia].
  - destruct b; simpl in *.
    + destruct vals as [|v vals]; simpl in *; [lia|]. f_equal. apply IH; lia.
    + apply IH; lia.
Qed.

Lemma mask_scatter_Forall2 {X} (Pv Pd : X -> Prop) mask dst vals :
  length dst = length mask -> length vals = count_true mask ->
  Forall Pv vals -> Forall Pd dst ->
  Forall2 (fun b y => if b : bool then Pv y else Pd y) mask (mask_scatter mask dst vals).
Proof.
  unfold count_true. revert dst vals.
  induction mask as [|b mask IH]; intros [|d dst] vals Hd Hv HPv HPd;
    simpl in *; try lia.
  - constructor.
  - inversion HPd; subst. destruct b; simpl in *.
    + destruct vals as [|v vals]; simpl in *; [lia|]. inversion HPv; subst.
      constructor; [assumption|]. apply IH; auto; lia.
    + constructor; [assumption|]. apply IH; auto.
Qed.

Lemma gather_length {X} (xs : list X) idx ys :
  gather xs idx = Some ys -> length ys = length idx.
Proof. apply map_opt_length. Qed.


Section OneImage.

Variables (log sigmoid : Q -> Q) (binary_cross_entropy : Q -> Q -> Q).
Variable num_classes : nat.

(** The branch "no targets alive". *)
Lemma assign_image_no_targets target anchors bi pred s :
  filter (fun t => (t_img t =? bi)%nat) target = [] ->
  assign_image log sigmoid binary_cross_entropy num_classes target anchors bi pred s
  = Some ({| match_mask := repeat false (length pred);
             box_target := [];
             obj_target := repeat 0 (length pred);
             cls_target := repeat 0%nat (length pred) |}, s).
Proof.
  intros H. unfold assign_image. rewrite H. reflexivity.
Qed.

(** What a successful run of the other branch went through. *)
Lemma assign_image_inv target anchors bi pred s a s' :
  let tpi := filter (fun t => (t_img t =? bi)%nat) target in
  let in_box := fst (CenterSampling.center_sampling tpi anchors) in
  let in_box_center := snd (CenterSampling.center_sampling tpi anchors) in
  tpi <> [] ->
  assign_image log sigmoid binary_cross_entropy num_classes target anchors bi pred s
  = Some (a, s') ->
  exists mp tp p_iou matched,
    dynamic_topk log sigmoid binary_cross_entropy num_classes
      pred tpi in_box in_box_center s = Some (mp, tp, p_iou, s')
    /\ gather tpi tp = Some matched
    /\ let m := mask_scatter in_box in_box mp in
       a = {| match_mask := m;
              box_target := map t_box matched;
              obj_target :=
                mask_scatter m (map b2q m)
                  (zip_with Qmult (mask_select m (map b2q m)) (mask_select mp p_iou));
              cls_target :=
                mask_scatter m (repeat num_classes (length pred)) (map t_cls matched) |}.
Proof.
  cbv zeta. intros Hne. unfold assign_image.
  destruct (filter _ target) as [|t0 tpi] eqn:Ef; [congruence|].
  cbn [length Nat.eqb].
  destruct (CenterSampling.center_sampling (t0 :: tpi) anchors) as [in_box ibc].
  cbn [fst snd]. unfold bind, lift, ret.
  destruct (dynamic_topk _ _ _ _ pred (t0 :: tpi) in_box ibc s)
    as [[[[mp tp] p_iou] s1]|]; [|discriminate].
  destruct (gather (t0 :: tpi) tp) as [matched|] eqn:Eg; [|discriminate].
  intros H. inversion H. subst.
  exists mp, tp, p_iou, matched. auto.
Qed.

End OneImage.

(** ** Independence of the diagnostic state *)

Section Determinism.

Variables (log sigmoid : Q -> Q) (binary_cross_entropy : Q -> Q -> Q).
Variable num_classes : nat.

(** [dynamic_topk] overwrites [max_topk] without reading it. *)
Lemma dynamic_topk_state input target in_box in_box_center s1 s2 :
  dynamic_topk log sigmoid binary_cross_entropy num_classes
    input target in_box in_box_center s1
  = dynamic_topk log sigmoid binary_cross_entropy num_classes
      input target in_box in_box_center s2.
Proof.
  unfold dynamic_topk, bind, lift, put, ret.
  destruct (build_cost _ _ _ _ _ _ _); [|reflexivity].
  destruct (top_ious _ _); [|reflexivity].
  destruct (select_topk _ _ _); reflexivity.
Qed.

Lemma assign_image_state target anchors bi pred s1 s2 :
  result (assign_image log sigmoid binary_cross_entropy num_classes
            target anchors bi pred s1)
  = result (assign_image log sigmoid binary_cross_entropy num_classes
              target anchors bi pred s2).
Proof.
  unfold assign_image.
  destruct (length (filter _ target) =? 0)%nat; [reflexivity|].
  destruct (CenterSampling.center_sampling _ anchors) as [in_box ibc].
  unfold bind. rewrite (dynamic_topk_state pred _ in_box ibc s1 s2).
  destruct (dynamic_topk _ _ _ _ _ _ _ _ s2) as [[[[mp tp] p_iou] s]|]; reflexivity.
Qed.

Lemma assign_images_state target anchors pred bi s1 s2 :
  result (assign_images log sigmoid binary_cross_entropy num_classes
            target anchors bi pred s1)
  = result (assign_images log sigmoid binary_cross_entropy num_classes
              target anchors bi pred s2).
Proof.
  revert bi s1 s2. induction pred as [|p pred IH]; intros bi s1 s2; simpl.
  - reflexivity.
  - unfold bind.
    pose proof (assign_image_state target anchors bi p s1 s2) as Hi.
    destruct (assign_image _ _ _ _ _ _ _ _ s1) as [[a1 t1]|];
      destruct (assign_image _ _ _ _ _ _ _ _ s2) as [[a2 t2]|];
      simpl in Hi; try discriminate; [|reflexivity].
    inversion Hi. subst a2.
    specialize (IH (S bi) t1 t2).
    destruct (assign_images _ _ _ _ _ _ _ _ t1) as [[r1 u1]|];
      destruct (assign_images _ _ _ _ _ _ _ _ t2) as [[r2 u2]|];
      simpl in IH; try discriminate; [|reflexivity].
    inversion IH. reflexivity.
Qed.

(** C10.  The tensors [assign_batch] returns do not depend on the value
    [max_topk] holds when it is called: two calls on the same inputs
    return the same tensors, the second call of a sequence included. *)
Theorem assign_batch_deterministic pred target anchors :
  (forall s1 s2,
      result (assign_batch log sigmoid binary_cross_entropy num_classes
                pred target anchors s1)
      = result (assign_batch log sigmoid binary_cross_entropy num_classes
                  pred target anchors s2))
  /\ (forall s a s',
         assign_batch log sigmoid binary_cross_entropy num_classes
           pred target anchors s = Some (a, s') ->
         result (assign_batch log sigmoid binary_cross_entropy num_classes
                   pred target anchors s') = Some a).
Proof.
  assert (H : forall s1 s2,
             result (assign_batch log sigmoid binary_cross_entropy num_classes
                       pred target anchors s1)
             = result (assign_batch log sigmoid binary_cross_entropy num_classes
                         pred target anchors s2)).
  { intros s1 s2. unfold assign_batch, bind, ret.
    pose proof (assign_images_state target anchors pred 0 s1 s2) as Hi.
    destruct (assign_images _ _ _ _ _ _ _ _ s1) as [[r1 u1]|];
      destruct (assign_images _ _ _ _ _ _ _ _ s2) as [[r2 u2]|];
      simpl in Hi; try discriminate; [|reflexivity].
    inversion Hi. reflexivity. }
  split; [exact H|].
  intros s a s' Hrun. rewrite (H s' s), Hrun. reflexivity.
Qed.

End Determinism.

(** ** Layout of the returned tensors *)

Lemma count_true_repeat_false n : count_true (repeat false n) = 0%nat.
Proof. unfold count_true. induction n; simpl; auto. Qed.

Lemma concat_length_uniform {X} A (ls : list (list X)) :
  Forall (fun l => length l = A) ls -> length (concat ls) = (length ls * A)%nat.
Proof.
  induction 1 as [|l ls Hl _ IH]; simpl; [reflexivity|].
  rewrite length_app, IH, Hl. reflexivity.
Qed.

Lemma concat_slice {X} A (ls : list (list X)) i l :
  Forall (fun l => length l = A) ls -> nth_error ls i = Some l ->
  firstn A (skipn (i * A) (concat ls)) = l.
Proof.
  intros H. revert i. induction H as [|l0 ls Hl0 _ IH]; intros [|i] Hi;
    simpl in *; try discriminate.
  - inversion Hi. subst l0. rewrite <- Hl0, firstn_app, Nat.sub_diag, firstn_all.
    simpl. apply app_nil_r.
  - rewrite skipn_app, Hl0.
    rewrite (skipn_all2 l0) by lia.
    replace (A + i * A - A)%nat with (i * A)%nat by lia.
    simpl. now apply IH.
Qed.

Lemma count_true_app l1 l2 : count_true (l1 ++ l2) = (count_true l1 + count_true l2)%nat.
Proof.
  unfold count_true. induction l1 as [|b l1 IH]; simpl; [reflexivity|].
  rewrite IH. lia.
Qed.

Lemma concat_count_true (parts : list Assignment) :
  Forall (fun a => length (box_target a) = count_true (match_mask a)) parts ->
  length (concat (map box_target parts))
  = count_true (concat (map match_mask parts)).
Proof.
  induction 1 as [|a parts Ha _ IH]; simpl; [reflexivity|].
  now rewrite length_app, count_true_app, IH, Ha.
Qed.

Section Layout.

Variables (log sigmoid : Q -> Q) (binary_cross_entropy : Q -> Q -> Q).
Variable num_classes : nat.

Lemma dynamic_topk_lengths input target in_box in_box_center s mp tp p_iou s' :
  dynamic_topk log sigmoid binary_cross_entropy num_classes
    input target in_box in_box_center s = Some (mp, tp, p_iou, s') ->
  length mp = length (mask_select in_box input)
  /\ length tp = count_true mp
  /\ length p_iou = length (mask_select in_box input).
Proof.
  intros H.
  destruct (dynamic_topk_inv _ _ _ _ _ _ _ _ _ _ _ H)
    as [cost [tk [selected [_ [_ [_ [Hr _]]]]]]].
  unfold collect in Hr. inversion Hr. subst.
  repeat split; now rewrite ?length_map, ?col_sums_length, ?length_seq.
Qed.

(** The pieces [assign_batch] collects for one image: one flag, one
    quality target and one class target per anchor, and one box per
    marked anchor. *)
Lemma assign_image_shapes target anchors bi pred s a s' :
  length pred = length anchors ->
  assign_image log sigmoid binary_cross_entropy num_classes target anchors bi pred s
  = Some (a, s') ->
  length (match_mask a) = length anchors
  /\ length (obj_target a) = length anchors
  /\ length (cls_target a) = length anchors
  /\ length (box_target a) = count_true (match_mask a).
Proof.
  intros HA Hrun.
  destruct (filter (fun t => (t_img t =? bi)%nat) target) as [|t0 tpi] eqn:Ef.
  - rewrite (assign_image_no_targets _ _ _ _ _ _ _ _ _ Ef) in Hrun.
    inversion Hrun. subst. simpl.
    rewrite !repeat_length, count_true_repeat_false. auto.
  - assert (Hne : filter (fun t => (t_img t =? bi)%nat) target <> [])
      by (rewrite Ef; discriminate).
    destruct (assign_image_inv _ _ _ _ _ _ _ _ _ _ _ Hne Hrun)
      as [mp [tp [p_iou [matched [Hdyn [Hg Ha]]]]]].
    cbv zeta in Ha. subst a. simpl.
    destruct (dynamic_topk_lengths _ _ _ _ _ _ _ _ _ Hdyn) as [Hmp [Htp _]].
    set (in_box := fst (CenterSampling.center_sampling _ anchors)) in *.
    assert (Hib : length in_box = length anchors)
      by apply center_sampling_mask_length.
    rewrite !mask_scatter_length, length_map, mask_scatter_length, repeat_length.
    repeat split; auto.
    rewrite length_map, (gather_length _ _ _ Hg), Htp.
    symmetry. apply count_true_scatter.
    rewrite Hmp. apply mask_select_length. rewrite HA.
    exact (center_sampling_mask_length _ anchors).
Qed.

Lemma assign_images_inv target anchors pred bi s parts s' :
  assign_images log sigmoid binary_cross_entropy num_classes
    target anchors bi pred s = Some (parts, s') ->
  Forall2 (fun ip part =>
             exists s1 s2,
               assign_image log sigmoid binary_cross_entropy num_classes
                 target anchors (fst ip) (snd ip) s1 = Some (part, s2))
          (combine (seq bi (length pred)) pred) parts.
Proof.
  revert bi s parts s'. induction pred as [|p pred IH]; intros bi s parts s' H;
    simpl in H.
  - inversion H. constructor.
  - unfold bind in H.
    destruct (assign_image _ _ _ _ _ _ _ _ s) as [[a t1]|] eqn:Ea; [|discriminate].
    destruct (assign_images _ _ _ _ _ _ _ _ t1) as [[r t2]|] eqn:Er; [|discriminate].
    inversion H. subst. simpl. constructor.
    + exists s, t1. exact Ea.
    + eapply IH. exact Er.
Qed.

End Layout.

Lemma Forall2_nth_error {X Y} (R : X -> Y -> Prop) l1 l2 i x :
  Forall2 R l1 l2 -> nth_error l1 i = Some x ->
  exists y, nth_error l2 i = Some y /\ R x y.
Proof.
  intros H. revert i. induction H as [|a b l1 l2 Hab _ IH]; intros [|i] Hi;
    simpl in *; try discriminate.
  - inversion Hi. subst. now exists b.
  - now apply IH.
Qed.

Lemma Forall2_Forall_r {X Y} (R : X -> Y -> Prop) (G : Y -> Prop) l1 l2 :
  Forall2 R l1 l2 -> (forall x y, In x l1 -> R x y -> G y) -> Forall G l2.
Proof.
  induction 1 as [|a b l1 l2 Hab _ IH]; intros HG; constructor.
  - apply (HG a b); [now left | exact Hab].
  - apply IH. intros x y Hx. apply HG. now right.
Qed.

Lemma nth_error_combine_seq {X} (l : list X) s i x :
  nth_error l i = Some x ->
  nth_error (combine (seq s (length l)) l) i = Some ((s + i)%nat, x).
Proof.
  revert s i. induction l as [|y l IH]; intros s [|i] H; simpl in *; try discriminate.
  - inversion H. now rewrite Nat.add_0_r.
  - rewrite (IH (S s) i H). f_equal. f_equal. lia.
Qed.

Section BatchLayout.

Variables (log sigmoid : Q -> Q) (binary_cross_entropy : Q -> Q -> Q).
Variable num_classes : nat.

(** C9 (amended).  For [N] images of [A] anchors each, the match mask,
    the quality target and the class target have [N * A] entries and the
    block of image [bi] is the slice from [bi * A]; the box target is the
    concatenation, in the order of the images, of one box per marked
    anchor, so it has as many rows as the mask has marks. *)
Theorem assign_batch_layout pred target anchors s a s' :
  Forall (fun p => length p = length anchors) pred ->
  assign_batch log sigmoid binary_cross_entropy num_classes pred target anchors s
  = Some (a, s') ->
  let N := length pred in
  let A := length anchors in
  length (match_mask a) = (N * A)%nat
  /\ length (obj_target a) = (N * A)%nat
  /\ length (cls_target a) = (N * A)%nat
  /\ length (box_target a) = count_true (match_mask a)
  /\ exists parts,
       a = cat parts /\ length parts = N
       /\ forall bi p, nth_error pred bi = Some p ->
            exists part,
              nth_error parts bi = Some part
              /\ result (assign_image log sigmoid binary_cross_entropy num_classes
                           target anchors bi p s) = Some part
              /\ firstn A (skipn (bi * A) (match_mask a)) = match_mask part
              /\ firstn A (skipn (bi * A) (obj_target a)) = obj_target part
              /\ firstn A (skipn (bi * A) (cls_target a)) = cls_target part
              /\ length (box_target part) = count_true (match_mask part).
Proof.
  intros Hpred Hrun. cbv zeta.
  unfold assign_batch, bind, ret in Hrun.
  destruct (assign_images _ _ _ _ _ _ _ _ s) as [[parts t]|] eqn:Ep; [|discriminate].
  inversion Hrun. subst a s'. clear Hrun.
  pose proof (assign_images_inv _ _ _ _ _ _ _ _ _ _ _ Ep) as HF.
  assert (Hlen : length parts = length pred).
  { rewrite <- (Forall2_length HF), length_combine, length_seq. lia. }
  assert (Hshape : Forall (fun part =>
                     length (match_mask part) = length anchors
                     /\ length (obj_target part) = length anchors
                     /\ length (cls_target part) = length anchors
                     /\ length (box_target part) = count_true (match_mask part)) parts).
  { apply (Forall2_Forall_r _ _ _ _ HF). intros [bi p] part Hin [s1 [s2 Hi]].
    simpl in Hi. apply (assign_image_shapes _ _ _ _ _ _ _ _ _ _ _) in Hi; [exact Hi|].
    rewrite Forall_forall in Hpred. apply Hpred.
    exact (in_combine_r _ _ _ _ Hin). }
  assert (Hm : Forall (fun l => length l = length anchors) (map match_mask parts)).
  { rewrite Forall_map. apply Forall_impl with (2 := Hshape). tauto. }
  assert (Ho : Forall (fun l => length l = length anchors) (map obj_target parts)).
  { rewrite Forall_map. apply Forall_impl with (2 := Hshape). tauto. }
  assert (Hc : Forall (fun l => length l = length anchors) (map cls_target parts)).
  { rewrite Forall_map. apply Forall_impl with (2 := Hshape). tauto. }
  unfold cat. simpl.
  rewrite (concat_length_uniform _ _ Hm), (concat_length_uniform _ _ Ho),
    (concat_length_uniform _ _ Hc), !length_map, Hlen.
  repeat (split; [reflexivity|]).
  split.
  { apply concat_count_true. apply Forall_impl with (2 := Hshape). tauto. }
  exists parts. split; [reflexivity|]. split; [exact Hlen|].
  intros bi p Hp.
  destruct (Forall2_nth_error _ _ _ bi (bi, p) HF) as [part [Hpart [s1 [s2 Hi]]]].
  { exact (nth_error_combine_seq pred 0 bi p Hp). }
  simpl in Hi. exists part. split; [exact Hpart|]. split.
  { rewrite (assign_image_state _ _ _ _ target anchors bi p s s1), Hi. reflexivity. }
  rewrite Forall_forall in Hshape.
  destruct (Hshape part (nth_error_In _ _ Hpart)) as [_ [_ [_ Hb]]].
  repeat split.
  - apply concat_slice; [exact Hm | now rewrite nth_error_map, Hpart].
  - apply concat_slice; [exact Ho | now rewrite nth_error_map, Hpart].
  - apply concat_slice; [exact Hc | now rewrite nth_error_map, Hpart].
  - exact Hb.
Qed.

End BatchLayout.

(** ** Which targets keep an anchor *)

Lemma nth_le_sum l t : (nth t l 0 <= sum_nat l)%nat.
Proof.
  revert t. induction l as [|x l IH]; intros [|t]; simpl; try lia.
  specialize (IH t). lia.
Qed.

(** The purged matrix: shape, 0/1 entries, columns summing to at most one. *)
Lemma purged_matrix_facts T P cost ks selected :
  shaped T P cost -> length ks = T ->
  select_topk P cost ks = Some selected ->
  let MM := purge P cost selected in
  shaped T P selected
  /\ shaped T P MM
  /\ (forall t p, (t < T)%nat -> (p < P)%nat -> (entry MM t p <= 1)%nat)
  /\ (forall p, (p < P)%nat -> (sum_nat (col 0%nat MM p) <= 1)%nat).
Proof.
  intros Hc Hks Hsel. cbv zeta.
  assert (Hs : shaped T P selected).
  { pose proof (select_topk_shaped _ _ _ _ Hsel) as Hs.
    destruct Hc as [Hc _]. rewrite Hc, Hks, Nat.min_id in Hs. exact Hs. }
  pose proof (select_topk_01 _ _ _ _ Hsel) as H01.
  split; [exact Hs|]. split; [apply (purge_spec T P cost selected Hc Hs)|]. split.
  - intros t p Ht Hp. now apply (purge_entry_01 T P).
  - intros p Hp. rewrite (purge_col_sum T P cost selected p Hc Hs Hp).
    destruct (Nat.ltb_spec 1 (sum_nat (col 0%nat selected p))); lia.
Qed.





Section Matching.

Variables (log sigmoid : Q -> Q) (binary_cross_entropy : Q -> Q -> Q).
Variable num_classes : nat.


End Matching.

(** ** Runs that do not fail *)

Lemma sum_nat_pos_nth l :
  (1 <= sum_nat l)%nat -> exists p, (p < length l)%nat /\ (1 <= nth p l 0)%nat.
Proof.
  induction l as [|x l IH]; simpl; intros H; [lia|].
  destruct x as [|x].
  - destruct IH as [p [Hp H1]]; [lia|]. exists (S p). split; [lia | exact H1].
  - exists 0%nat. split; lia.
Qed.


Section Totality.

Variables (log sigmoid : Q -> Q) (binary_cross_entropy : Q -> Q -> Q).
Variable num_classes : nat.




End Totality.

(** ** Ranges of the quality and class targets *)

Lemma mask_scatter_Forall2_dst {X} (Pv Pd : X -> Prop) mask dst vals :
  length vals = count_true mask -> Forall Pv vals ->
  Forall2 (fun (b : bool) d => b = false -> Pd d) mask dst ->
  Forall2 (fun b y => if b : bool then Pv y else Pd y) mask (mask_scatter mask dst vals).
Proof.
  unfold count_true. intros Hv HPv HF. revert vals Hv HPv.
  induction HF as [|b d mask dst Hbd _ IH]; intros vals Hv HPv; simpl in *.
  - constructor.
  - destruct b; simpl in *.
    + destruct vals as [|v vals]; simpl in *; [lia|]. inversion HPv; subst.
      constructor; [assumption|]. apply IH; auto.
    + constructor; [now apply Hbd|]. apply IH; auto.
Qed.

Lemma Forall_zip_with {X Y Z} (f : X -> Y -> Z) (RX : X -> Prop) (RY : Y -> Prop)
  (RZ : Z -> Prop) xs ys :
  (forall x y, RX x -> RY y -> RZ (f x y)) ->
  Forall RX xs -> Forall RY ys -> Forall RZ (zip_with f xs ys).
Proof.
  intros Hf HX HY. unfold zip_with. rewrite Forall_map, Forall_forall.
  intros [x y] Hin. simpl. rewrite Forall_forall in HX, HY.
  apply Hf; [exact (HX x (in_combine_l _ _ _ _ Hin)) | exact (HY y (in_combine_r _ _ _ _ Hin))].
Qed.

Lemma Forall_mask_select {X} (R : X -> Prop) mask xs :
  Forall R xs -> Forall R (mask_select mask xs).
Proof.
  intros H. apply Forall_forall. intros x Hx. rewrite Forall_forall in H.
  apply H. exact (In_mask_select _ _ _ Hx).
Qed.

Lemma max_Q_range l : Forall (fun v => 0 <= v <= 1) l -> 0 <= max_Q l <= 1.
Proof.
  destruct l as [|x l]; simpl; [intros _; lra|]. intros H.
  inversion H as [|? ? Hx Hl]; subst. clear H. revert x Hx.
  induction Hl as [|y l Hy _ IH]; intros x Hx; simpl; [exact Hx|].
  apply IH. split.
  - apply Qle_trans with x; [tauto | apply Q.le_max_l].
  - apply Q.max_lub; tauto.
Qed.

Lemma gather_In {X} (xs : list X) idx ys :
  gather xs idx = Some ys -> Forall (fun y => In y xs) ys.
Proof.
  intros H. apply map_opt_Forall2 in H.
  apply (Forall2_Forall_r _ _ _ _ H). intros i y _ Hy.
  exact (nth_error_In _ _ Hy).
Qed.

Section Ranges.

Variables (log sigmoid : Q -> Q) (binary_cross_entropy : Q -> Q -> Q).
Variable num_classes : nat.

Lemma build_cost_classes target paired in_box_center cost :
  build_cost log sigmoid binary_cross_entropy num_classes target paired in_box_center
  = Some cost ->
  Forall (fun t => (t_cls t < num_classes)%nat) target.
Proof.
  unfold build_cost. intros H.
  destruct (map_opt _ target) as [v|] eqn:E; [|discriminate].
  apply map_opt_Forall2 in E. clear H. induction E as [|t o target v Ht _ IH];
    constructor; [|exact IH].
  unfold one_hot in Ht. destruct (Nat.ltb_spec (t_cls t) num_classes); [assumption|].
  discriminate.
Qed.

(** In an image with targets, a marked anchor has a quality target in
    [0, 1] and the class of a target, below [num_classes]; an unmarked
    anchor has quality 0 and class [num_classes]. *)
Lemma assign_image_ranges target anchors bi pred s a s' :
  let tpi := filter (fun t => (t_img t =? bi)%nat) target in
  tpi <> [] -> length pred = length anchors ->
  Forall (fun t => proper_box (t_box t)) tpi ->
  Forall (fun p => proper_box (p_box p)) pred ->
  assign_image log sigmoid binary_cross_entropy num_classes target anchors bi pred s
  = Some (a, s') ->
  Forall2 (fun b q => if b : bool then 0 <= q <= 1 else q = 0)
          (match_mask a) (obj_target a)
  /\ Forall2 (fun b c => if b : bool then (c < num_classes)%nat else c = num_classes)
             (match_mask a) (cls_target a).
Proof.
  cbv zeta. intros Hne HA Htb Hpb Hrun.
  destruct (assign_image_inv _ _ _ _ _ _ _ _ _ _ _ Hne Hrun)
    as [mp [tp [p_iou [matched [Hdyn [Hg Ha]]]]]].
  cbv zeta in Ha.
  set (tpi := filter (fun t => (t_img t =? bi)%nat) target) in *.
  set (in_box := fst (CenterSampling.center_sampling tpi anchors)) in *.
  destruct (dynamic_topk_inv _ _ _ _ _ _ _ _ _ _ _ Hdyn)
    as [cost [tk [selected [Hcost [_ [_ [Hr _]]]]]]].
  destruct (dynamic_topk_lengths _ _ _ _ _ _ _ _ _ _ _ _ _ Hdyn) as [Hmp [Htp Hpi]].
  assert (Hib : length in_box = length anchors) by apply center_sampling_mask_length.
  set (m := mask_scatter in_box in_box mp) in *.
  assert (Hcount : count_true m = count_true mp).
  { apply count_true_scatter. rewrite Hmp. apply mask_select_length. lia. }
  assert (Hpiou : Forall (fun v => 0 <= v <= 1) p_iou).
  { apply (f_equal snd) in Hr. simpl in Hr. rewrite Hr.
    assert (Hiou : Forall (Forall (fun v => 0 <= v <= 1))
                     (pair_wise_iou tpi (mask_select in_box pred))).
    { apply pair_wise_iou_le_1; [exact Htb | now apply Forall_mask_select]. }
    unfold collect. cbn [snd]. rewrite Forall_map, Forall_forall.
    intros p _. apply max_Q_range. unfold col. rewrite Forall_map.
    apply Forall_impl with (2 := Hiou). intros row Hrow.
    destruct (nth_in_or_default p row 0) as [Hin|Hd].
    - rewrite Forall_forall in Hrow. now apply Hrow.
    - rewrite Hd. lra. }
  subst a. cbn [match_mask obj_target cls_target]. split.
  - apply mask_scatter_Forall2_dst.
    + rewrite zip_with_length, !mask_select_length by (rewrite ?length_map; lia).
      lia.
    + apply (Forall_zip_with Qmult (fun v => 0 <= v <= 1) (fun v => 0 <= v <= 1)).
      * intros x y [Hx0 Hx1] [Hy0 Hy1]. split.
        -- now apply Qmult_le_0_compat.
        -- apply Qle_trans with (1 * y); [|lra].
           now apply Qmult_le_compat_r.
      * apply Forall_mask_select. rewrite Forall_map, Forall_forall.
        intros [] _; simpl; lra.
      * now apply Forall_mask_select.
    + clear. induction m as [|b m IH]; simpl; constructor; [|exact IH].
      intros Hb. now subst b.
  - apply mask_scatter_Forall2.
    + rewrite repeat_length. unfold m. rewrite mask_scatter_length. lia.
    + rewrite length_map, (gather_length _ _ _ Hg). lia.
    + rewrite Forall_map.
      pose proof (build_cost_classes _ _ _ _ Hcost) as Hcls.
      apply Forall_impl with (2 := gather_In _ _ _ Hg). intros t Ht.
      rewrite Forall_forall in Hcls. now apply Hcls.
    + apply Forall_forall. intros c Hc. now apply repeat_spec in Hc.
Qed.

End Ranges.

(** ** No eligible anchor *)

Section NoCandidate.

Variables (log sigmoid : Q -> Q) (binary_cross_entropy : Q -> Q -> Q).
Variable num_classes : nat.



End NoCandidate.

(** ** The image without targets *)

(** C4.  A batch of one image and no target returns an all-false mask,
    no box, zero quality targets, and a class target that is 0 at every
    anchor whatever [num_classes] is: the branch "no targets alive"
    fills it with [new_zeros], where the other branch starts from
    [num_classes]. *)
Theorem no_targets_class_target
  (log sigmoid : Q -> Q) (binary_cross_entropy : Q -> Q -> Q) (num_classes : nat)
  (pred : list Pred) (anchors : list Anchor) (s : Q) :
  assign_batch log sigmoid binary_cross_entropy num_classes [pred] [] anchors s
  = Some ({| match_mask := repeat false (length pred);
             box_target := [];
             obj_target := repeat 0 (length pred);
             cls_target := repeat 0%nat (length pred) |}, s).
Proof.
  unfold assign_batch, assign_images, bind, ret.
  rewrite (assign_image_no_targets log sigmoid binary_cross_entropy num_classes
             [] anchors 0%nat pred s eq_refl).
  unfold cat. simpl. now rewrite !app_nil_r.
Qed.

(** * Further properties of the assignment *)

(** ** Matched anchors *)

Lemma nth_mask_scatter_self mask vals i :
  nth i (mask_scatter mask mask vals) false = true -> nth i mask false = true.
Proof.
  revert vals i. induction mask as [|b mask IH]; intros vals i H; simpl in *.
  - exact H.
  - destruct b.
    + destruct i as [|i]; [reflexivity|].
      destruct vals as [|v vals]; simpl in H; eapply IH; exact H.
    + destruct i as [|i]; [exact H|]. simpl in H. eapply IH. exact H.
Qed.

Lemma center_sampling_mask_spec targets anchors i a :
  nth_error anchors i = Some a ->
  nth i (fst (CenterSampling.center_sampling targets anchors)) false = true
  <-> exists t, In t targets
                /\ (CenterSampling.inside_box t a \/ CenterSampling.inside_center t a).
Proof.
  intros Ha.
  assert (Hi : (i < length anchors)%nat) by (apply nth_error_Some; congruence).
  unfold CenterSampling.center_sampling. simpl fst.
  rewrite (zip_with_nth orb _ _ i false false false)
    by (now rewrite any_rows_length).
  rewrite orb_true_iff.
  unfold CenterSampling.is_in_boxes, CenterSampling.is_in_centers.
  rewrite (any_rows_spec CenterSampling.in_box targets anchors i a Ha).
  rewrite (any_rows_spec CenterSampling.in_center targets anchors i a Ha).
  split.
  - intros [[t [Ht Hb]]|[t [Ht Hc]]]; exists t; split; auto.
    + left. now apply in_box_iff.
    + right. now apply in_center_iff.
  - intros [t [Ht [Hb|Hc]]]; [left|right]; exists t; split; auto.
    + now apply in_box_iff.
    + now apply in_center_iff.
Qed.

Lemma nth_repeat_false n i : nth i (repeat false n) false = false.
Proof.
  destruct (Nat.lt_ge_cases i n) as [H|H].
  - now apply nth_repeat_lt.
  - apply nth_overflow. now rewrite repeat_length.
Qed.

Section MatchedAnchors.

Variables (log sigmoid : Q -> Q) (binary_cross_entropy : Q -> Q -> Q).
Variable num_classes : nat.

(** X1.  An anchor that the assignment of an image marks as matched is
    geometrically eligible: its centre is inside the box, or inside the
    2.5-stride window, of a target of that image. *)
Theorem matched_anchor_is_eligible target anchors bi pred s a s' i anc :
  assign_image log sigmoid binary_cross_entropy num_classes target anchors bi pred s
  = Some (a, s') ->
  nth_error anchors i = Some anc ->
  nth i (match_mask a) false = true ->
  exists t, In t target /\ t_img t = bi
            /\ (CenterSampling.inside_box t anc \/ CenterSampling.inside_center t anc).
Proof.
  intros Hrun Hanc Hm.
  destruct (filter (fun t => (t_img t =? bi)%nat) target) as [|t0 tpi] eqn:Ef.
  - rewrite (assign_image_no_targets _ _ _ _ _ _ _ _ _ Ef) in Hrun.
    inversion Hrun. subst a. simpl in Hm. rewrite nth_repeat_false in Hm.
    discriminate.
  - assert (Hne : filter (fun t => (t_img t =? bi)%nat) target <> [])
      by (rewrite Ef; discriminate).
    destruct (assign_image_inv _ _ _ _ _ _ _ _ _ _ _ Hne Hrun)
      as [mp [tp [p_iou [matched [_ [_ Ha]]]]]].
    cbv zeta in Ha. subst a. cbn [match_mask] in Hm.
    apply nth_mask_scatter_self in Hm.
    apply (center_sampling_mask_spec _ anchors i anc Hanc) in Hm.
    destruct Hm as [t [Ht Hgeo]]. exists t.
    apply filter_In in Ht. destruct Ht as [Ht Hbi].
    apply Nat.eqb_eq in Hbi. auto.
Qed.

End MatchedAnchors.

(** ** More on conflict resolution *)

Lemma argmin_from_spec best ibest i xs :
  let a := argmin_from best ibest i xs in
  (a = ibest /\ forall j, (j < length xs)%nat -> best <= nth j xs 0)
  \/ ((i <= a < i + length xs)%nat
      /\ nth (a - i) xs 0 < best
      /\ (forall j, (j < length xs)%nat -> nth (a - i) xs 0 <= nth j xs 0)
      /\ (forall j, (j < a - i)%nat -> nth (a - i) xs 0 < nth j xs 0)).
Proof.
  cbv zeta. revert best ibest i.
  induction xs as [|x xs IH]; intros best ibest i; simpl.
  - left. split; [reflexivity | intros j Hj; lia].
  - destruct (Qlt_bool x best) eqn:E.
    + apply Qlt_bool_iff in E. right.
      destruct (IH x i (S i)) as [[Ha Hall]|[Hr [Hlt [Hmin Hfirst]]]].
      * rewrite Ha, Nat.sub_diag. split; [lia|]. split; [exact E|]. split.
        -- intros [|j] Hj; [apply Qle_refl | apply Hall; lia].
        -- intros j Hj. lia.
      * destruct (argmin_from x i (S i) xs - i)%nat as [|k] eqn:Ek; [lia|].
        replace (argmin_from x i (S i) xs - S i)%nat with k in * by lia.
        split; [lia|]. split; [eapply Qlt_trans; eassumption|]. split.
        -- intros [|j] Hj; [now apply Qlt_le_weak | apply Hmin; lia].
        -- intros [|j] Hj; [exact Hlt | apply Hfirst; lia].
    + assert (Hle : best <= x).
      { unfold Qlt_bool in E. apply negb_false_iff in E. now apply Qle_bool_iff. }
      destruct (IH best ibest (S i)) as [[Ha Hall]|[Hr [Hlt [Hmin Hfirst]]]].
      * left. split; [exact Ha|]. intros [|j] Hj; [exact Hle | apply Hall; lia].
      * right.
        destruct (argmin_from best ibest (S i) xs - i)%nat as [|k] eqn:Ek; [lia|].
        replace (argmin_from best ibest (S i) xs - S i)%nat with k in * by lia.
        assert (Hx : nth k xs 0 < x) by (eapply Qlt_le_trans; eassumption).
        split; [lia|]. split; [exact Hlt|]. split.
        -- intros [|j] Hj; [now apply Qlt_le_weak | apply Hmin; lia].
        -- intros [|j] Hj; [exact Hx | apply Hfirst; lia].
Qed.

(** [argmin] returns the first index of a minimal entry. *)
Lemma argmin_spec xs :
  xs <> [] ->
  (argmin xs < length xs)%nat
  /\ (forall j, (j < length xs)%nat -> nth (argmin xs) xs 0 <= nth j xs 0)
  /\ (forall j, (j < argmin xs)%nat -> nth (argmin xs) xs 0 < nth j xs 0).
Proof.
  intros Hne. split; [now apply argmin_bound|].
  destruct xs as [|x xs]; [congruence|]. simpl argmin.
  destruct (argmin_from_spec x 0 1 xs) as [[Ha Hall]|[Hr [Hlt [Hmin Hfirst]]]];
    cbv zeta in *.
  - rewrite Ha. split.
    + intros [|j] Hj; [apply Qle_refl | apply Hall; simpl in Hj; lia].
    + intros j Hj. lia.
  - destruct (argmin_from x 0 1 xs) as [|k] eqn:Ek; [lia|].
    replace (S k - 1)%nat with k in * by lia. split.
    + intros [|j] Hj; [now apply Qlt_le_weak | apply Hmin; simpl in Hj; lia].
    + intros [|j] Hj; [exact Hlt | apply Hfirst; lia].
Qed.

Lemma nth_col_Q (M : list (list Q)) t p :
  (t < length M)%nat -> nth t (col 0 M p) 0 = nth p (nth t M []) 0.
Proof.
  intros H. unfold col.
  exact (nth_map_in (fun row => nth p row 0) M t [] 0 H).
Qed.

Lemma count_true_all_false l : Forall (fun b => b = false) l -> count_true l = 0%nat.
Proof.
  unfold count_true. induction 1 as [|b l Hb _ IH]; simpl; [reflexivity|].
  now rewrite Hb, IH.
Qed.

(** X3.  Resolving the conflicts a second time changes nothing. *)
Theorem purge_idempotent T P cost M :
  shaped T P cost -> shaped T P M ->
  purge P cost (purge P cost M) = purge P cost M.
Proof.
  intros Hc HM. unfold purge at 1.
  assert (H0 : count_true (map (fun s => (1 <? s)%nat) (col_sums P (purge P cost M)))
               = 0%nat).
  { apply count_true_all_false. unfold col_sums. rewrite !Forall_map, Forall_forall.
    intros p Hp. apply in_seq in Hp.
    rewrite (purge_col_sum T P cost M p Hc HM) by lia.
    destruct (Nat.ltb_spec 1 (sum_nat (col 0%nat M p))) as [H|H].
    - reflexivity.
    - apply Nat.ltb_ge. exact H. }
  rewrite H0. reflexivity.
Qed.

(** X4.  An anchor marked by several targets goes to the target of lowest
    cost among all the targets of the image, the first one among equal
    costs; every other row of that column is cleared. *)
Theorem purge_winner T P cost M p :
  shaped T P cost -> shaped T P M -> (p < P)%nat ->
  (1 < sum_nat (col 0%nat M p))%nat ->
  let w := argmin (col 0 cost p) in
  (w < T)%nat
  /\ (forall t, (t < T)%nat ->
        entry (purge P cost M) t p = if (t =? w)%nat then 1%nat else 0%nat)
  /\ (forall t, (t < T)%nat -> nth p (nth w cost []) 0 <= nth p (nth t cost []) 0)
  /\ (forall t, (t < w)%nat -> nth p (nth w cost []) 0 < nth p (nth t cost []) 0).
Proof.
  intros Hc HM Hp Hdup. cbv zeta.
  assert (HT : (0 < T)%nat).
  { destruct T; [|lia]. destruct HM as [HM _].
    apply length_zero_iff_nil in HM. subst M. simpl in Hdup. lia. }
  assert (Hlen : length (col 0 cost p) = T).
  { unfold col. rewrite length_map. now destruct Hc. }
  destruct (argmin_spec (col 0 cost p)) as [Hw [Hmin Hfirst]].
  { intros E. apply (f_equal (@length Q)) in E. simpl in E. lia. }
  rewrite Hlen in Hw, Hmin.
  assert (HcT : length cost = T) by (now destruct Hc).
  split; [exact Hw|]. split; [|split].
  - intros t Ht. destruct (purge_spec T P cost M Hc HM) as [_ HE].
    rewrite (HE t p Ht Hp). apply Nat.ltb_lt in Hdup. rewrite Hdup.
    rewrite Nat.eqb_sym. reflexivity.
  - intros t Ht. rewrite <- !nth_col_Q by lia. now apply Hmin.
  - intros t Ht. rewrite <- !nth_col_Q by lia. now apply Hfirst.
Qed.

(** X2.  Conflict resolution neither adds nor drops a matched anchor: a
    paired prediction is marked in [mp] exactly when the top-k of some
    target selected it. *)
Theorem matched_iff_selected T P cost ks selected iou p :
  shaped T P cost -> length ks = T ->
  select_topk P cost ks = Some selected -> (p < P)%nat ->
  nth p (fst (fst (collect P iou (purge P cost selected)))) false = true
  <-> exists t, (t < T)%nat /\ entry selected t p = 1%nat.
Proof.
  intros Hc Hks Hsel Hp.
  destruct (purged_matrix_facts T P cost ks selected Hc Hks Hsel)
    as [Hs [HMM [_ _]]].
  pose proof (select_topk_01 _ _ _ _ Hsel) as H01.
  unfold collect. cbn [fst].
  rewrite (nth_map_in _ _ p 0%nat false) by (now rewrite col_sums_length).
  rewrite nth_col_sums by exact Hp.
  rewrite (purge_col_sum T P cost selected p Hc Hs Hp), Nat.ltb_lt.
  assert (HlenS : length selected = T) by (now destruct Hs).
  split.
  - intros Hpos.
    assert (Hcs : (1 <= sum_nat (col 0%nat selected p))%nat).
    { destruct (Nat.ltb_spec 1 (sum_nat (col 0%nat selected p))); lia. }
    destruct (sum_nat_pos_nth _ Hcs) as [t [Ht H1]].
    unfold col in Ht. rewrite length_map, HlenS in Ht.
    rewrite nth_col in H1 by lia.
    exists t. split; [exact Ht|].
    pose proof (entry_01 T P selected t p Hs H01 Ht Hp). lia.
  - intros [t [Ht H1]].
    pose proof (nth_le_sum (col 0%nat selected p) t) as Hle.
    rewrite nth_col in Hle by lia.
    destruct (Nat.ltb_spec 1 (sum_nat (col 0%nat selected p))); lia.
Qed.

(** ** The quality target of a matched anchor *)

Lemma fold_Qmax_spec l acc :
  let m := fold_left Qmax l acc in
  acc <= m /\ (forall x, In x l -> x <= m)
  /\ (m == acc \/ exists x, In x l /\ m == x).
Proof.
  cbv zeta. revert acc. induction l as [|y l IH]; intros acc; simpl.
  - split; [apply Qle_refl|]. split; [tauto | left; reflexivity].
  - destruct (IH (Qmax acc y)) as [Hacc [Hall Hex]]. split; [|split].
    + eapply Qle_trans; [apply Q.le_max_l | exact Hacc].
    + intros x [Hx|Hx].
      * subst x. eapply Qle_trans; [apply Q.le_max_r | exact Hacc].
      * now apply Hall.
    + destruct Hex as [Hm|[x [Hx Hm]]].
      * destruct (Q.max_spec acc y) as [[_ E]|[_ E]].
        -- right. exists y. split; [now left | exact (Qeq_trans _ _ _ Hm E)].
        -- left. exact (Qeq_trans _ _ _ Hm E).
      * right. exists x. split; [now right | exact Hm].
Qed.

(** [max_Q] of a non-empty vector is one of its entries and bounds them
    all. *)
Lemma max_Q_spec l :
  l <> [] ->
  (forall x, In x l -> x <= max_Q l) /\ exists x, In x l /\ max_Q l == x.
Proof.
  destruct l as [|y l]; [congruence|]. intros _. simpl max_Q.
  destruct (fold_Qmax_spec l y) as [Hacc [Hall Hex]]. cbv zeta in *. split.
  - intros x [Hx|Hx]; [now subst | now apply Hall].
  - destruct Hex as [Hm|[x [Hx Hm]]].
    + exists y. split; [now left | exact Hm].
    + exists x. split; [now right | exact Hm].
Qed.

Lemma mask_select_b2q m : mask_select m (map b2q m) = repeat 1 (count_true m).
Proof.
  unfold count_true. induction m as [|[] m IH]; simpl; [reflexivity| |exact IH].
  now rewrite IH.
Qed.

Lemma zip_with_ones n ys :
  length ys = n -> Forall2 Qeq (zip_with Qmult (repeat 1 n) ys) ys.
Proof.
  revert ys. induction n as [|n IH]; intros [|y ys] H; simpl in *; try lia.
  - constructor.
  - constructor; [apply Qmult_1_l | apply IH; lia].
Qed.

Section QualityTarget.

Variables (log sigmoid : Q -> Q) (binary_cross_entropy : Q -> Q -> Q).
Variable num_classes : nat.

(** X5.  The quality targets of the matched anchors of an image, in
    order, are [p_iou[mp]]; and [p_iou[p]] is the largest IoU of paired
    prediction [p] with any target of the image, which need not be the
    target the anchor is matched to. *)
Theorem quality_is_column_max target anchors bi pred s a s' :
  let tpi := filter (fun t => (t_img t =? bi)%nat) target in
  let in_box := fst (CenterSampling.center_sampling tpi anchors) in
  let in_box_center := snd (CenterSampling.center_sampling tpi anchors) in
  let paired := mask_select in_box pred in
  tpi <> [] -> length pred = length anchors ->
  assign_image log sigmoid binary_cross_entropy num_classes target anchors bi pred s
  = Some (a, s') ->
  exists mp tp p_iou,
    dynamic_topk log sigmoid binary_cross_entropy num_classes
      pred tpi in_box in_box_center s = Some (mp, tp, p_iou, s')
    /\ Forall2 Qeq (mask_select (match_mask a) (obj_target a)) (mask_select mp p_iou)
    /\ forall p prd, nth_error paired p = Some prd ->
         (forall t, In t tpi -> box_iou (t_box t) (p_box prd) <= nth p p_iou 0)
         /\ exists t, In t tpi /\ nth p p_iou 0 == box_iou (t_box t) (p_box prd).
Proof.
  cbv zeta. intros Hne HA Hrun.
  destruct (assign_image_inv _ _ _ _ _ _ _ _ _ _ _ Hne Hrun)
    as [mp [tp [p_iou [matched [Hdyn [Hg Ha]]]]]].
  cbv zeta in Ha.
  set (tpi := filter (fun t => (t_img t =? bi)%nat) target) in *.
  set (in_box := fst (CenterSampling.center_sampling tpi anchors)) in *.
  exists mp, tp, p_iou. split; [exact Hdyn|].
  destruct (dynamic_topk_lengths _ _ _ _ _ _ _ _ _ _ _ _ _ Hdyn) as [Hmp [Htp Hpi]].
  assert (Hib : length in_box = length anchors) by apply center_sampling_mask_length.
  set (m := mask_scatter in_box in_box mp) in *.
  assert (Hcount : count_true m = count_true mp).
  { apply count_true_scatter. rewrite Hmp. apply mask_select_length. lia. }
  assert (Hsel : length (mask_select mp p_iou) = count_true mp)
    by (apply mask_select_length; lia).
  split.
  - subst a. cbn [match_mask obj_target].
    rewrite mask_select_scatter.
    + rewrite mask_select_b2q, Hcount. apply zip_with_ones. exact Hsel.
    + now rewrite length_map.
    + rewrite zip_with_length, mask_select_b2q, repeat_length. lia.
  - intros p prd Hprd.
    destruct (dynamic_topk_inv _ _ _ _ _ _ _ _ _ _ _ Hdyn)
      as [cost [tk [selected [_ [_ [_ [Hr _]]]]]]].
    apply (f_equal snd) in Hr. cbn [snd] in Hr. unfold collect in Hr. cbn [snd] in Hr.
    assert (Hp : (p < length (mask_select in_box pred))%nat)
      by (apply nth_error_Some; congruence).
    rewrite Hr, nth_map_seq by exact Hp.
    unfold pair_wise_iou.
    rewrite (col_map_map (fun t q => box_iou (t_box t) (p_box q)) tpi
               (mask_select in_box pred) p prd 0 Hprd).
    destruct (max_Q_spec (map (fun t => box_iou (t_box t) (p_box prd)) tpi))
      as [Hub [x [Hx Hmax]]].
    { destruct tpi; [congruence | discriminate]. }
    split.
    + intros t Ht. apply Hub. apply in_map_iff. now exists t.
    + apply in_map_iff in Hx. destruct Hx as [t [Ex Ht]]. exists t.
      split; [exact Ht|]. rewrite Hmax, Ex. reflexivity.
Qed.

End QualityTarget.

(** ** Grouping of the targets by image *)

Section Grouping.

Variables (log sigmoid : Q -> Q) (binary_cross_entropy : Q -> Q -> Q).
Variable num_classes : nat.

Lemma assign_image_filter t1 t2 anchors bi pred s :
  filter (fun t => (t_img t =? bi)%nat) t1 = filter (fun t => (t_img t =? bi)%nat) t2 ->
  assign_image log sigmoid binary_cross_entropy num_classes t1 anchors bi pred s
  = assign_image log sigmoid binary_cross_entropy num_classes t2 anchors bi pred s.
Proof. intros H. unfold assign_image. now rewrite H. Qed.

Lemma assign_images_filter t1 t2 anchors pred b0 s :
  (forall bi, (b0 <= bi < b0 + length pred)%nat ->
     filter (fun t => (t_img t =? bi)%nat) t1
     = filter (fun t => (t_img t =? bi)%nat) t2) ->
  assign_images log sigmoid binary_cross_entropy num_classes t1 anchors b0 pred s
  = assign_images log sigmoid binary_cross_entropy num_classes t2 anchors b0 pred s.
Proof.
  revert b0 s. induction pred as [|p pred IH]; intros b0 s H; simpl; [reflexivity|].
  unfold bind. rewrite (assign_image_filter t1 t2 anchors b0 p s) by (apply H; simpl; lia).
  destruct (assign_image _ _ _ _ t2 anchors b0 p s) as [[a s1]|]; [|reflexivity].
  rewrite (IH (S b0) s1); [reflexivity|]. intros bi Hbi. apply H. simpl. lia.
Qed.

(** X6.  The batch assignment reads the target tensor only through the
    rows of each image of the batch, in their order: rows of other
    images, and the way the rows of different images interleave, do not
    change what it returns. *)
Theorem assign_batch_groups_by_image pred t1 t2 anchors s :
  (forall bi, (bi < length pred)%nat ->
     filter (fun t => (t_img t =? bi)%nat) t1
     = filter (fun t => (t_img t =? bi)%nat) t2) ->
  assign_batch log sigmoid binary_cross_entropy num_classes pred t1 anchors s
  = assign_batch log sigmoid binary_cross_entropy num_classes pred t2 anchors s.
Proof.
  intros H. unfold assign_batch, bind.
  rewrite (assign_images_filter t1 t2 anchors pred 0 s); [reflexivity|].
  intros bi Hbi. apply H. lia.
Qed.

End Grouping.

(** ** The diagnostic [max_topk] *)

Section MaxTopk.

Variables (log sigmoid : Q -> Q) (binary_cross_entropy : Q -> Q -> Q).
Variable num_classes : nat.

Lemma assign_images_no_targets_state target anchors pred b0 s parts s' :
  (forall bi, (b0 <= bi < b0 + length pred)%nat ->
     filter (fun t => (t_img t =? bi)%nat) target = []) ->
  assign_images log sigmoid binary_cross_entropy num_classes
    target anchors b0 pred s = Some (parts, s') ->
  s' = s.
Proof.
  revert b0 s parts. induction pred as [|p pred IH]; intros b0 s parts H Hrun;
    simpl in Hrun.
  - now inversion Hrun.
  - unfold bind in Hrun.
    rewrite (assign_image_no_targets _ _ _ _ _ _ _ _ _ (H b0 ltac:(simpl; lia)))
      in Hrun.
    destruct (assign_images _ _ _ _ _ _ (S b0) pred s) as [[r s1]|] eqn:E;
      [|discriminate].
    inversion Hrun. subst. eapply IH; [|exact E].
    intros bi Hbi. apply H. simpl. lia.
Qed.

Lemma assign_image_state_written target anchors bi pred s a s' :
  let tpi := filter (fun t => (t_img t =? bi)%nat) target in
  let paired := mask_select (fst (CenterSampling.center_sampling tpi anchors)) pred in
  tpi <> [] ->
  assign_image log sigmoid binary_cross_entropy num_classes target anchors bi pred s
  = Some (a, s') ->
  exists tk,
    top_ious (length paired) (pair_wise_iou tpi paired) = Some tk
    /\ s' = sum_Q (map sum_Q tk) / inject_Z (Z.of_nat (length tpi)).
Proof.
  cbv zeta. intros Hne Hrun.
  destruct (assign_image_inv _ _ _ _ _ _ _ _ _ _ _ Hne Hrun)
    as [mp [tp [p_iou [matched [Hdyn _]]]]].
  destruct (dynamic_topk_inv _ _ _ _ _ _ _ _ _ _ _ Hdyn)
    as [cost [tk [selected [_ [Htk [_ [_ Hs]]]]]]].
  exists tk. split; assumption.
Qed.

Lemma assign_images_last_state target anchors pred b0 k p s parts s' :
  let bi := (b0 + k)%nat in
  let tpi := filter (fun t => (t_img t =? bi)%nat) target in
  let paired := mask_select (fst (CenterSampling.center_sampling tpi anchors)) p in
  nth_error pred k = Some p -> tpi <> [] ->
  (forall bj, (bi < bj < b0 + length pred)%nat ->
     filter (fun t => (t_img t =? bj)%nat) target = []) ->
  assign_images log sigmoid binary_cross_entropy num_classes
    target anchors b0 pred s = Some (parts, s') ->
  exists tk,
    top_ious (length paired) (pair_wise_iou tpi paired) = Some tk
    /\ s' = sum_Q (map sum_Q tk) / inject_Z (Z.of_nat (length tpi)).
Proof.
  cbv zeta. revert b0 k s parts.
  induction pred as [|p0 pred IH]; intros b0 k s parts Hp Hne Hrest Hrun.
  - destruct k; discriminate.
  - simpl in Hrun. unfold bind in Hrun.
    destruct (assign_image _ _ _ _ _ _ b0 p0 s) as [[a s1]|] eqn:Ea; [|discriminate].
    destruct (assign_images _ _ _ _ _ _ (S b0) pred s1) as [[r s2]|] eqn:Er;
      [|discriminate].
    inversion Hrun. subst parts s'. clear Hrun.
    destruct k as [|k]; simpl in Hp.
    + inversion Hp. subst p0. rewrite Nat.add_0_r in *.
      assert (s2 = s1).
      { eapply assign_images_no_targets_state; [|exact Er].
        intros bj Hbj. apply Hrest. simpl. lia. }
      subst s2. exact (assign_image_state_written _ _ _ _ _ _ _ Hne Ea).
    + replace (b0 + S k)%nat with (S b0 + k)%nat in * by lia.
      eapply IH; [exact Hp | exact Hne | | exact Er].
      intros bj Hbj. apply Hrest. simpl. lia.
Qed.

(** X7.  [max_topk] is overwritten by every image that has targets and
    left alone by the others: after a batch it is the mean, over the
    targets of the last image with targets, of the sums of their top
    IoUs, and it is unchanged when no image of the batch has a target. *)
Theorem max_topk_after_batch pred target anchors s a s' :
  assign_batch log sigmoid binary_cross_entropy num_classes pred target anchors s
  = Some (a, s') ->
  ((forall bi, (bi < length pred)%nat ->
      filter (fun t => (t_img t =? bi)%nat) target = []) ->
   s' = s)
  /\ (forall bi p,
        let tpi := filter (fun t => (t_img t =? bi)%nat) target in
        let paired :=
          mask_select (fst (CenterSampling.center_sampling tpi anchors)) p in
        nth_error pred bi = Some p -> tpi <> [] ->
        (forall bj, (bi < bj < length pred)%nat ->
           filter (fun t => (t_img t =? bj)%nat) target = []) ->
        exists tk,
          top_ious (length paired) (pair_wise_iou tpi paired) = Some tk
          /\ s' = sum_Q (map sum_Q tk) / inject_Z (Z.of_nat (length tpi))).
Proof.
  intros Hrun. unfold assign_batch, bind, ret in Hrun.
  destruct (assign_images _ _ _ _ _ _ 0%nat pred s) as [[parts s1]|] eqn:E;
    [|discriminate].
  inversion Hrun. subst. clear Hrun. split.
  - intros Hnone. eapply assign_images_no_targets_state; [|exact E].
    intros bi Hbi. apply Hnone. lia.
  - cbv zeta. intros bi p Hp Hne Hrest.
    exact (assign_images_last_state target anchors pred 0 bi p s parts s'
             Hp Hne Hrest E).
Qed.

End MaxTopk.

(** ** How many anchors an image can match *)






Section MatchedCount.

Variables (log sigmoid : Q -> Q) (binary_cross_entropy : Q -> Q -> Q).
Variable num_classes : nat.


End MatchedCount.

(** * The other functions of the assigner module *)

(** ** label_smoothing *)

Lemma label_smoothing_value target eps num_classes inplace :
  (num_classes - 1 <> 0)%Z ->
  label_smoothing target eps num_classes inplace
  = Some (if inplace
          then map (fun v => if Qlt_bool 0 v then 1 - eps
                             else eps / inject_Z (num_classes - 1)) target
          else target,
          map (fun v => if Qlt_bool 0 v then 1 - eps
                        else eps / inject_Z (num_classes - 1)) target).
Proof.
  intros Hnc. unfold label_smoothing.
  destruct (Z.eqb_spec (num_classes - 1) 0) as [E|_]; [congruence|].
  assert (Hout : mask_fill (map negb (map (fun v => Qlt_bool 0 v) target))
                   (mask_fill (map (fun v => Qlt_bool 0 v) target) target (1 - eps))
                   (eps / inject_Z (num_classes - 1))
                 = map (fun v => if Qlt_bool 0 v then 1 - eps
                                 else eps / inject_Z (num_classes - 1)) target).
  { unfold mask_fill, zip_with. induction target as [|v target IH]; simpl;
      [reflexivity|].
    rewrite IH. now destruct (Qlt_bool 0 v). }
  rewrite Hout. reflexivity.
Qed.

Lemma count_true_le_length (m : list bool) : (count_true m <= length m)%nat.
Proof.
  unfold count_true, sum_nat. induction m as [|b m IH]; simpl; [lia|].
  destruct b; simpl; lia.
Qed.

Lemma sum_Q_smoothed (hi lo : Q) target :
  sum_Q (map (fun v => if Qlt_bool 0 v then hi else lo) target)
  == inject_Z (Z.of_nat (count_true (map (fun v => Qlt_bool 0 v) target))) * hi
     + inject_Z (Z.of_nat (length target
                           - count_true (map (fun v => Qlt_bool 0 v) target))) * lo.
Proof.
  induction target as [|v target IH].
  - unfold sum_Q, count_true, sum_nat. simpl. ring.
  - pose proof (count_true_le_length (map (fun v => Qlt_bool 0 v) target)) as Hm.
    rewrite length_map in Hm.
    change (sum_Q (map (fun v => if Qlt_bool 0 v then hi else lo) (v :: target)))
      with ((if Qlt_bool 0 v then hi else lo)
            + sum_Q (map (fun v => if Qlt_bool 0 v then hi else lo) target)).
    change (count_true (map (fun v => Qlt_bool 0 v) (v :: target)))
      with (b2n (Qlt_bool 0 v)
            + count_true (map (fun v => Qlt_bool 0 v) target))%nat.
    rewrite IH.
    set (m := count_true (map (fun v => Qlt_bool 0 v) target)) in *.
    change (length (v :: target)) with (S (length target)).
    destruct (Qlt_bool 0 v); cbn [b2n].
    + replace (S (length target) - (1 + m))%nat with (length target - m)%nat by lia.
      replace (Z.of_nat (1 + m)) with (1 + Z.of_nat m)%Z by lia.
      rewrite inject_Z_plus. ring.
    + replace (S (length target) - (0 + m))%nat with (S (length target - m)) by lia.
      replace (Z.of_nat (S (length target - m)))
        with (1 + Z.of_nat (length target - m))%Z by lia.
      rewrite inject_Z_plus. simpl (0 + m)%nat. ring.
Qed.

(** X9.  Smoothing a one-hot row keeps its total: a row of
    [num_classes >= 2] labels of which exactly one is positive is
    returned with the positive entry at [1 - eps], the others at
    [eps / (num_classes - 1)], and the entries sum to one. *)
Theorem label_smoothing_one_hot target eps num_classes inplace :
  (2 <= num_classes)%Z ->
  Z.of_nat (length target) = num_classes ->
  count_true (map (fun v => Qlt_bool 0 v) target) = 1%nat ->
  exists caller smoothed,
    label_smoothing target eps num_classes inplace = Some (caller, smoothed)
    /\ smoothed = map (fun v => if Qlt_bool 0 v then 1 - eps
                                else eps / inject_Z (num_classes - 1)) target
    /\ sum_Q smoothed == 1.
Proof.
  intros Hnc Hlen Hone.
  eexists _, _. split; [apply label_smoothing_value; lia|].
  split; [reflexivity|].
  rewrite sum_Q_smoothed, Hone.
  replace (Z.of_nat (length target - 1)) with (num_classes - 1)%Z by lia.
  assert (Hd : ~ inject_Z (num_classes - 1) == 0).
  { intros E. unfold Qeq, inject_Z in E. simpl in E. lia. }
  change (inject_Z (Z.of_nat 1)) with 1.
  field. exact Hd.
Qed.

(** X10.  Smoothing is not idempotent: for [0 < eps < 1] every entry of
    a smoothed tensor is positive, so smoothing the result again sets
    every entry to [1 - eps], whatever the labels were. *)
Theorem label_smoothing_twice target eps num_classes inplace inplace' :
  (2 <= num_classes)%Z -> 0 < eps -> eps < 1 ->
  exists caller smoothed caller',
    label_smoothing target eps num_classes inplace = Some (caller, smoothed)
    /\ label_smoothing smoothed eps num_classes inplace'
       = Some (caller', map (fun _ => 1 - eps) target).
Proof.
  intros Hnc H0 H1.
  eexists _, _, _. split; [apply label_smoothing_value; lia|].
  rewrite label_smoothing_value by lia.
  assert (Hpos : 0 < eps / inject_Z (num_classes - 1)).
  { apply Qlt_shift_div_l; [|lra].
    change 0 with (inject_Z 0). rewrite <- Zlt_Qlt. lia. }
  assert (Hhi : 0 < 1 - eps) by lra.
  apply Qlt_bool_iff in Hpos. apply Qlt_bool_iff in Hhi.
  assert (Hmap : map (fun v => if Qlt_bool 0 v then 1 - eps
                               else eps / inject_Z (num_classes - 1))
                   (map (fun v => if Qlt_bool 0 v then 1 - eps
                                  else eps / inject_Z (num_classes - 1)) target)
                 = map (fun _ => 1 - eps) target).
  { rewrite map_map. apply map_ext. intros v.
    destruct (Qlt_bool 0 v); [now rewrite Hhi | now rewrite Hpos]. }
  rewrite Hmap. reflexivity.
Qed.

(** ** iou_loss, compute_loss and SimOTA.forward *)

Section LossFacts.

Variables (log sigmoid : Q -> Q) (binary_cross_entropy : Q -> Q -> Q).
Variable num_classes : nat.
Variable completely_box_iou : list Box -> list Box -> list Q.
Variable quality_focal_loss : list (list Q) -> list nat * list Q -> Q.
Variable mean : list Q -> Q.

(** The batch tensors have one row per anchor of the batch, and the box
    target one row per marked anchor. *)
Lemma assign_batch_rows pred target anchors s a s' :
  Forall (fun p => length p = length anchors) pred ->
  assign_batch log sigmoid binary_cross_entropy num_classes pred target anchors s
  = Some (a, s') ->
  length (match_mask a) = length (concat pred)
  /\ length (box_target a) = count_true (match_mask a).
Proof.
  intros Hpred Hrun.
  unfold assign_batch, bind, ret in Hrun.
  destruct (assign_images _ _ _ _ _ _ _ _ s) as [[parts t]|] eqn:Ep; [|discriminate].
  inversion Hrun. subst a s'. clear Hrun.
  pose proof (assign_images_inv _ _ _ _ _ _ _ _ _ _ _ Ep) as HF.
  assert (Hlen : length parts = length pred).
  { rewrite <- (Forall2_length HF), length_combine, length_seq. lia. }
  assert (Hshape : Forall (fun part =>
                     length (match_mask part) = length anchors
                     /\ length (box_target part) = count_true (match_mask part))
                     parts).
  { apply (Forall2_Forall_r _ _ _ _ HF). intros [bi p] part Hin [s1 [s2 Hi]].
    simpl in Hi. apply (assign_image_shapes _ _ _ _ _ _ _ _ _ _ _) in Hi; [tauto|].
    rewrite Forall_forall in Hpred. apply Hpred.
    exact (in_combine_r _ _ _ _ Hin). }
  unfold cat. simpl. split.
  - rewrite (concat_length_uniform (length anchors)), length_map, Hlen.
    + symmetry. now apply concat_length_uniform.
    + rewrite Forall_map. apply Forall_impl with (2 := Hshape). tauto.
  - apply concat_count_true. apply Forall_impl with (2 := Hshape). tauto.
Qed.

(** X11.  Whenever the assignment of a batch returns, so does the loss:
    the mask has one entry per row of the flattened prediction and marks
    as many rows as the box target has, so neither the mask indexing nor
    the shape assertion of [iou_loss] raises.  The loss is the mean of
    [1 - CIoU] over the marked rows plus 0.4 times the quality focal
    loss over all anchors, divided by the number of marked rows (by one
    when there is none). *)
Theorem forward_loss_defined pred target anchors s a s' :
  Forall (fun p => length p = length anchors) pred ->
  assign_batch log sigmoid binary_cross_entropy num_classes pred target anchors s
  = Some (a, s') ->
  let flat := concat pred in
  let box_pred := map p_box (mask_select (match_mask a) flat) in
  let lbox :=
    mean (map (fun v => 1 - v) (completely_box_iou box_pred (box_target a))) in
  let lqfl :=
    0.4 * quality_focal_loss (map p_scores flat) (cls_target a, obj_target a)
    / inject_Z (Z.of_nat (Nat.max (count_true (match_mask a)) 1)) in
  length box_pred = length (box_target a)
  /\ forward log sigmoid binary_cross_entropy num_classes
       completely_box_iou quality_focal_loss mean true pred target anchors s
     = Some (inl (lbox + lqfl, [0 + lbox; 0 + lqfl]), s').
Proof.
  intros Hpred Hrun. cbv zeta.
  destruct (assign_batch_rows _ _ _ _ _ _ Hpred Hrun) as [Hm Hb].
  assert (Hrows : length (map p_box (mask_select (match_mask a) (concat pred)))
                  = length (box_target a)).
  { now rewrite length_map, mask_select_length, Hb. }
  split; [exact Hrows|].
  unfold forward, bind. rewrite Hrun. unfold mask_index.
  rewrite (proj2 (Nat.eqb_eq _ _) Hm). simpl lift at 1. cbv iota beta.
  unfold compute_loss, iou_loss.
  rewrite (proj2 (Nat.eqb_eq _ _) Hrows), Hb. reflexivity.
Qed.




End LossFacts.

(** ** The centre window of center_sampling *)

Lemma window_cells (k c : Z) (s xc : Q) :
  0 < s -> inject_Z c * s < xc -> xc < (inject_Z c + 1) * s ->
  Qabs ((inject_Z k + 0.5) * s - xc) < 2.5 * s <-> (Z.abs (k - c) <= 2)%Z.
Proof.
  intros Hs H1 H2. rewrite Qabs_Qlt_condition.
  destruct (Z_le_gt_dec (Z.abs (k - c)) 2) as [Hd|Hd].
  - split; [intros _; exact Hd|intros _].
    assert (Hk1 : inject_Z c - 2 <= inject_Z k).
    { assert (E : inject_Z c - 2 == inject_Z (c - 2))
        by (unfold Z.sub; rewrite inject_Z_plus; reflexivity).
      rewrite E, <- Zle_Qle. lia. }
    assert (Hk2 : inject_Z k <= inject_Z c + 2).
    { change 2 with (inject_Z 2). rewrite <- inject_Z_plus, <- Zle_Qle. lia. }
    split; nra.
  - split; [intros [Ha Hb]; exfalso|lia].
    destruct (Z_le_gt_dec 3 (k - c)) as [Hp|Hp].
    + assert (Hk : inject_Z c + 3 <= inject_Z k).
      { change 3 with (inject_Z 3). rewrite <- inject_Z_plus, <- Zle_Qle. lia. }
      nra.
    + assert (Hk : inject_Z k <= inject_Z c - 3).
      { assert (E : inject_Z c - 3 == inject_Z (c - 3))
          by (unfold Z.sub; rewrite inject_Z_plus; reflexivity).
        rewrite E, <- Zle_Qle. lia. }
      nra.
Qed.

(** X13.  The centre window is the 5 x 5 block of cells around the box
    centre: for a target whose box centre lies strictly inside cell
    [(cx, cy)] of the grid of stride [s], the anchor of cell [(kx, ky)]
    of that grid passes the centre test exactly when [|kx - cx| <= 2]
    and [|ky - cy| <= 2]; every such anchor is eligible. *)
Theorem center_window_5x5 targets anchors t i a (kx ky cx cy : Z) :
  In t targets -> nth_error anchors i = Some a ->
  0 < stride a -> gx a == inject_Z kx -> gy a == inject_Z ky ->
  inject_Z cx * stride a < CenterSampling.bbox_xc t ->
  CenterSampling.bbox_xc t < (inject_Z cx + 1) * stride a ->
  inject_Z cy * stride a < CenterSampling.bbox_yc t ->
  CenterSampling.bbox_yc t < (inject_Z cy + 1) * stride a ->
  (CenterSampling.in_center t a = true
   <-> (Z.abs (kx - cx) <= 2 /\ Z.abs (ky - cy) <= 2)%Z)
  /\ ((Z.abs (kx - cx) <= 2 /\ Z.abs (ky - cy) <= 2)%Z ->
      nth i (fst (CenterSampling.center_sampling targets anchors)) false = true).
Proof.
  intros Ht Ha Hs Hgx Hgy Hx1 Hx2 Hy1 Hy2.
  assert (Hiff : CenterSampling.in_center t a = true
                 <-> (Z.abs (kx - cx) <= 2 /\ Z.abs (ky - cy) <= 2)%Z).
  { rewrite in_center_iff. unfold CenterSampling.inside_center,
      CenterSampling.x_center, CenterSampling.y_center.
    unfold CenterSampling.bbox_xc in Hx1, Hx2.
    unfold CenterSampling.bbox_yc in Hy1, Hy2.
    rewrite Hgx, Hgy.
    rewrite (window_cells kx cx _ _ Hs Hx1 Hx2).
    rewrite (window_cells ky cy _ _ Hs Hy1 Hy2). tauto. }
  split; [exact Hiff|]. intros Hblock.
  apply (center_sampling_mask_spec targets anchors i a Ha).
  exists t. split; [exact Ht|]. right.
  apply in_center_iff. now apply Hiff.
Qed.

(** * The exporter (xnnc/xnnc_caffe.py) *)

Module XnncCaffeFacts.

Import String Ascii XnncCaffe.
Local Open Scope string_scope.

(** No underscore occurs in [d]. *)
Definition underscore_free (d : string) : Prop :=
  forall p q, d <> p ++ String "_" q.

Lemma str_underscore_free n : underscore_free (str n).
Proof.
  unfold str. generalize (Nat.to_uint n). intros d.
  induction d; intros p q; simpl;
    destruct p as [|c p]; simpl; try discriminate;
    intros E; injection E as _ E; exact (IHd p q E).
Qed.

Lemma append_sep_inj a b d1 d2 :
  underscore_free d1 -> underscore_free d2 ->
  a ++ String "_" d1 = b ++ String "_" d2 -> a = b /\ d1 = d2.
Proof.
  intros H1 H2. revert b. induction a as [|c a IH]; intros [|c' b] E; simpl in E.
  - injection E as E. auto.
  - injection E as _ E. exfalso. exact (H1 b d2 E).
  - injection E as _ E. exfalso. exact (H2 a d1 (eq_sym E)).
  - injection E as Ec E. destruct (IH b E) as [Ha Hd]. subst. auto.
Qed.

Lemma str_inj n m : str n = str m -> n = m.
Proof.
  unfold str. intros E. apply DecimalNat.Unsigned.to_uint_inj.
  pose proof (DecimalString.NilEmpty.usu (Nat.to_uint n)) as Hn.
  pose proof (DecimalString.NilEmpty.usu (Nat.to_uint m)) as Hm.
  rewrite E in Hn. congruence.
Qed.

Lemma iid_inj op1 op2 n m :
  fst (iid op1 n) = fst (iid op2 m) -> op1 = op2 /\ n = m.
Proof.
  unfold iid. simpl. intros E.
  destruct (append_sep_inj op1 op2 (str n) (str m)
              (str_underscore_free n) (str_underscore_free m) E) as [Ho Hs].
  split; [exact Ho | exact (str_inj n m Hs)].
Qed.

Lemma iids_cons op ops c :
  iids (op :: ops) c
  = (fst (iid op c) :: fst (iids ops (c + 1)), snd (iids ops (c + 1))).
Proof.
  cbn [iids]. unfold iid. cbv beta iota zeta. cbn [fst].
  now destruct (iids ops (c + 1)).
Qed.

Lemma iids_names ops c :
  List.length (fst (iids ops c)) = List.length ops
  /\ snd (iids ops c) = (c + List.length ops)%nat
  /\ forall i op, nth_error ops i = Some op ->
       nth_error (fst (iids ops c)) i = Some (fst (iid op (c + i))).
Proof.
  revert c. induction ops as [|op ops IH]; intros c.
  - simpl. repeat split; auto. intros [|i] op H; discriminate.
  - rewrite iids_cons. cbn [fst snd List.length].
    destruct (IH (c + 1)%nat) as [Hl [Hs Hn]]. repeat split.
    + now rewrite Hl.
    + lia.
    + intros [|i] op' H; simpl in H.
      * inversion H. subst. cbn [nth_error]. now rewrite Nat.add_0_r.
      * cbn [nth_error]. rewrite (Hn i op' H).
        now replace (c + 1 + i)%nat with (c + S i)%nat by lia.
Qed.

(** X14.  Successive calls of [iid] never give the same name twice,
    whatever the op types and the value of the counter before the first
    call: call [i] returns the op type, an underscore and the decimal
    of the counter plus [i], and the counter ends advanced by the number
    of calls. *)
Theorem iid_names_distinct ops c :
  NoDup (fst (iids ops c))
  /\ snd (iids ops c) = (c + List.length ops)%nat
  /\ forall i op, nth_error ops i = Some op ->
       nth_error (fst (iids ops c)) i = Some (op ++ "_" ++ str (c + i)).
Proof.
  destruct (iids_names ops c) as [Hl [Hs Hn]].
  split; [|split; [exact Hs | exact Hn]].
  apply (proj2 (NoDup_nth_error (fst (iids ops c)))).
  intros i j Hi E. rewrite Hl in Hi.
  destruct (nth_error ops i) as [opi|] eqn:Ei;
    [|apply nth_error_None in Ei; lia].
  rewrite (Hn i opi Ei) in E.
  destruct (nth_error ops j) as [opj|] eqn:Ej.
  - rewrite (Hn j opj Ej) in E. injection E as E.
    destruct (iid_inj opi opj (c + i) (c + j) E) as [_ H]. lia.
  - apply nth_error_None in Ej. rewrite <- Hl in Ej.
    apply nth_error_None in Ej. rewrite Ej in E. discriminate.
Qed.

(** ** register_shape *)









Lemma bottom_shapes_key_error d names i x :
  nth_error names i = Some x -> lookup d x = None ->
  (forall j y, (j < i)%nat -> nth_error names j = Some y -> lookup d y <> None) ->
  bottom_shapes d names = inl (KeyError x).
Proof.
  revert i. induction names as [|y names IH]; intros [|i] Hx Hn Hb;
    simpl in Hx; try discriminate.
  - inversion Hx. subst. simpl. now rewrite Hn.
  - simpl. destruct (lookup d y) as [s|] eqn:Ey.
    + rewrite (IH i Hx Hn); [reflexivity|].
      intros j z Hj Hz. apply (Hb (S j) z); [lia | exact Hz].
    + exfalso. apply (Hb 0%nat y); [lia | reflexivity | exact Ey].
Qed.

(** X16.  Outside input mode [register_shape] raises [KeyError] for
    the first input blob that has no registered shape, whatever the
    layer: [reshape] is not called. *)
Theorem register_shape_key_error layer d i x :
  nth_error (input_names layer) i = Some x -> lookup d x = None ->
  (forall j y, (j < i)%nat -> nth_error (input_names layer) j = Some y ->
     lookup d y <> None) ->
  register_shape layer d false = inl (KeyError x).
Proof.
  intros Hx Hn Hb. unfold register_shape.
  now rewrite (bottom_shapes_key_error d (input_names layer) i x Hx Hn Hb).
Qed.

End XnncCaffeFacts.

(** * The detection model (yolov5_cspdarknet_0_5x/model.py) and the images *)

(** An array of shape (n0, n1, n2). *)
Definition array_shape {X} (n0 n1 n2 : nat) (a : list (list (list X))) : Prop :=
  length a = n0
  /\ Forall (fun r => length r = n1 /\ Forall (fun l => length l = n2) r) a.

Lemma Forall_nth_in {X} (P : X -> Prop) l i d :
  Forall P l -> (i < length l)%nat -> P (nth i l d).
Proof. intros H Hi. rewrite Forall_forall in H. now apply H, nth_In. Qed.

(** ** Detect *)

Lemma nth_error_concat_seq {X} (f : nat -> list X) m n s i j :
  (forall k, (s <= k < s + n)%nat -> length (f k) = m) ->
  (i < n)%nat -> (j < m)%nat ->
  nth_error (concat (map f (seq s n))) (i * m + j) = nth_error (f (s + i)%nat) j.
Proof.
  revert s i. induction n as [|n IH]; intros s i Hlen Hi Hj; [lia|].
  cbn [seq map concat]. destruct i as [|i].
  - rewrite nth_error_app1 by (rewrite Hlen; lia).
    now rewrite Nat.add_0_r.
  - rewrite nth_error_app2 by (rewrite Hlen; lia).
    rewrite Hlen by lia.
    replace (S i * m + j - m)%nat with (i * m + j)%nat by lia.
    rewrite (IH (S s) i); [|intros k Hk; apply Hlen; lia|lia|lia].
    f_equal. f_equal. lia.
Qed.

Lemma length_concat_seq {X} (f : nat -> list X) m n s :
  (forall k, (s <= k < s + n)%nat -> length (f k) = m) ->
  length (concat (map f (seq s n))) = (n * m)%nat.
Proof.
  revert s. induction n as [|n IH]; intros s Hlen; [reflexivity|].
  cbn [seq map concat]. rewrite length_app, Hlen by lia.
  rewrite (IH (S s)) by (intros k Hk; apply Hlen; lia). lia.
Qed.

Section DetectFacts.

Variable sigmoid : Q -> Q.
Variables (no na : nat) (stride : Q) (anchor_grid : list (Q * Q)).

Lemma make_grid_entry nx ny xv yv :
  (xv < nx)%nat -> (yv < ny)%nat ->
  nth xv (nth yv (Detect._make_grid nx ny) []) (0, 0)
  = (inject_Z (Z.of_nat xv), inject_Z (Z.of_nat yv)).
Proof.
  intros Hx Hy. unfold Detect._make_grid.
  rewrite (nth_map_seq _ ny yv [] Hy).
  now rewrite (nth_map_seq _ nx xv (0, 0) Hx).
Qed.

Lemma decode_length x grid anchor :
  length x = no -> (4 <= no)%nat ->
  length (Detect.decode sigmoid stride x grid anchor) = no.
Proof.
  intros Hx Hno. unfold Detect.decode.
  rewrite !length_app, length_skipn, length_map. simpl. lia.
Qed.

(** X17.  The inference output of a detection layer for one image has
    one row per anchor and cell, row [(a * ny + y) * nx + x] being the
    decoded prediction of anchor [a] at cell [(x, y)]: as long as the
    sigmoid lies in [0, 1], its centre is within
    [(x - 0.5) * stride, (x + 1.5) * stride] and
    [(y - 0.5) * stride, (y + 1.5) * stride], its width and height are
    between 0 and 4 times those of the anchor, and the other outputs
    are the sigmoid of the convolution output. *)
Theorem detect_layer_row (x : list (list (list Q))) a yv xv :
  let ny := length (nth 0 x []) in
  let nx := length (nth 0 (nth 0 x []) []) in
  let out o := nth xv (nth yv (nth (a * no + o) x []) []) 0 in
  let aw := fst (nth a anchor_grid (0, 0)) in
  let ah := snd (nth a anchor_grid (0, 0)) in
  let gx := inject_Z (Z.of_nat xv) in
  let gy := inject_Z (Z.of_nat yv) in
  (4 <= no)%nat -> (a < na)%nat -> (yv < ny)%nat -> (xv < nx)%nat ->
  0 <= stride -> 0 <= aw -> 0 <= ah ->
  (forall o, (o < 4)%nat -> 0 <= sigmoid (out o) /\ sigmoid (out o) <= 1) ->
  length (Detect.detect_layer sigmoid no na stride anchor_grid x)
  = (na * (ny * nx))%nat
  /\ exists row,
       nth_error (Detect.detect_layer sigmoid no na stride anchor_grid x)
         ((a * ny + yv) * nx + xv) = Some row
       /\ length row = no
       /\ (gx - 0.5) * stride <= nth 0 row 0 <= (gx + 1.5) * stride
       /\ (gy - 0.5) * stride <= nth 1 row 0 <= (gy + 1.5) * stride
       /\ 0 <= nth 2 row 0 <= 4 * aw
       /\ 0 <= nth 3 row 0 <= 4 * ah
       /\ forall o, (4 <= o < no)%nat -> nth o row 0 = sigmoid (out o).
Proof.
  cbv zeta. intros Hno Ha Hy Hx Hs Haw Hah Hsig.
  set (ny := length (nth 0 x [])) in *.
  set (nx := length (nth 0 (nth 0 x []) [])) in *.
  set (cell := fun a yv xv =>
         Detect.decode sigmoid stride
           (map (fun o => nth xv (nth yv (nth (a * no + o) x []) []) 0) (seq 0 no))
           (nth xv (nth yv (Detect._make_grid nx ny) []) (0, 0))
           (nth a anchor_grid (0, 0))).
  assert (Hcell : forall a yv xv, length (cell a yv xv) = no).
  { intros. apply decode_length; [|exact Hno]. now rewrite length_map, length_seq. }
  assert (Hrow : forall a yv, length (map (cell a yv) (seq 0 nx)) = nx).
  { intros. now rewrite length_map, length_seq. }
  assert (Himg : forall a,
             length (concat (map (fun yv => map (cell a yv) (seq 0 nx)) (seq 0 ny)))
             = (ny * nx)%nat).
  { intros. apply length_concat_seq. intros k _. apply Hrow. }
  change (Detect.detect_layer sigmoid no na stride anchor_grid x)
    with (concat (map (fun a => concat (map (fun yv => map (cell a yv) (seq 0 nx))
                                           (seq 0 ny))) (seq 0 na))).
  split.
  { apply length_concat_seq. intros k _. apply Himg. }
  exists (cell a yv xv). split.
  { replace ((a * ny + yv) * nx + xv)%nat with (a * (ny * nx) + (yv * nx + xv))%nat
      by lia.
    rewrite (nth_error_concat_seq _ (ny * nx) na 0 a (yv * nx + xv));
      [|intros k _; apply Himg|exact Ha|nia].
    rewrite (nth_error_concat_seq _ nx ny 0 yv xv);
      [|intros k _; apply Hrow|exact Hy|exact Hx].
    simpl. rewrite nth_error_map, nth_error_nth' with (d := 0%nat)
      by (now rewrite length_seq).
    now rewrite seq_nth. }
  split; [apply Hcell|].
  unfold cell. rewrite (make_grid_entry nx ny xv yv Hx Hy).
  unfold Detect.decode. cbn [fst snd].
  assert (Hy_o : forall o, (o < no)%nat ->
             nth o (map sigmoid
                      (map (fun o => nth xv (nth yv (nth (a * no + o) x []) []) 0)
                         (seq 0 no))) 0
             = sigmoid (nth xv (nth yv (nth (a * no + o) x []) []) 0)).
  { intros o Ho. rewrite map_map. now rewrite (nth_map_seq _ no o 0 Ho). }
  rewrite !Hy_o by lia.
  destruct (Hsig 0%nat ltac:(lia)) as [H0a H0b].
  destruct (Hsig 1%nat ltac:(lia)) as [H1a H1b].
  destruct (Hsig 2%nat ltac:(lia)) as [H2a H2b].
  destruct (Hsig 3%nat ltac:(lia)) as [H3a H3b].
  set (s0 := sigmoid _) in H0a, H0b |- *.
  set (s1 := sigmoid _) in H1a, H1b |- *.
  set (s2 := sigmoid _) in H2a, H2b |- *.
  set (s3 := sigmoid _) in H3a, H3b |- *.
  cbn [nth app].
  change ((s2 * 2) ^ 2) with ((s2 * 2) * (s2 * 2)).
  change ((s3 * 2) ^ 2) with ((s3 * 2) * (s3 * 2)).
  assert (Hwh : forall s w, 0 <= s -> s <= 1 -> 0 <= w ->
                  0 <= s * 2 * (s * 2) * w /\ s * 2 * (s * 2) * w <= 4 * w).
  { intros s w Hs0 Hs1 Hw.
    assert (Ht : 0 <= s * 2 * (s * 2) /\ s * 2 * (s * 2) <= 4) by (split; nra).
    destruct Ht as [Ht0 Ht4]. set (t := s * 2 * (s * 2)) in *. split; nra. }
  destruct (Hwh s2 (fst (nth a anchor_grid (0, 0))) H2a H2b Haw) as [Hw0 Hw4].
  destruct (Hwh s3 (snd (nth a anchor_grid (0, 0))) H3a H3b Hah) as [Hh0 Hh4].
  repeat split; try assumption; try nra.
  intros o Ho.
  destruct o as [|[|[|[|o]]]]; try lia.
  cbn [nth app]. rewrite nth_skipn. apply Hy_o. lia.
Qed.

End DetectFacts.

(** ** Focus *)

Module FocusFacts.

Import Focus.

Definition shaped4 (A B C D : nat) (w : Weight) : Prop :=
  length w = A
  /\ Forall (fun m => length m = B
                      /\ Forall (fun r => length r = C
                                          /\ Forall (fun l => length l = D) r) m) w.

Lemma shaped4_zeros A B C D : shaped4 A B C D (zeros A B C D).
Proof.
  unfold shaped4, zeros. split; [apply repeat_length|].
  apply Forall_forall. intros m Hm. apply repeat_spec in Hm. subst m.
  split; [apply repeat_length|].
  apply Forall_forall. intros r Hr. apply repeat_spec in Hr. subst r.
  split; [apply repeat_length|].
  apply Forall_forall. intros l Hl. apply repeat_spec in Hl. subst l.
  apply repeat_length.
Qed.

Lemma get4_zeros A B C D o c ky kx :
  (o < A)%nat -> (c < B)%nat -> (ky < C)%nat -> (kx < D)%nat ->
  get4 (zeros A B C D) o c ky kx = 0.
Proof.
  intros Ho Hc Hky Hkx. unfold get4, zeros.
  rewrite (nth_repeat_lt _ _ Ho), (nth_repeat_lt _ _ Hc), (nth_repeat_lt _ _ Hky).
  now apply nth_repeat_lt.
Qed.

Lemma set4_shaped A B C D w o c ky kx v :
  shaped4 A B C D w -> (o < A)%nat -> (c < B)%nat -> (ky < C)%nat ->
  shaped4 A B C D (set4 w o c ky kx v).
Proof.
  intros [HA HF] Ho Hc Hky. unfold set4. split; [now rewrite set_nth_length|].
  pose proof (Forall_nth_in _ w o [] HF ltac:(lia)) as [HB HFm].
  pose proof (Forall_nth_in _ (nth o w []) c [] HFm ltac:(lia)) as [HC HFr].
  apply Forall_set_nth; [exact HF|].
  split; [now rewrite set_nth_length|].
  apply Forall_set_nth; [exact HFm|].
  split; [now rewrite set_nth_length|].
  apply Forall_set_nth; [exact HFr|].
  rewrite set_nth_length.
  exact (Forall_nth_in _ (nth c (nth o w []) []) ky [] HFr ltac:(lia)).
Qed.

Lemma get4_set4 A B C D w o c ky kx v o' c' ky' kx' :
  shaped4 A B C D w ->
  (o' < A)%nat -> (c' < B)%nat -> (ky' < C)%nat -> (kx' < D)%nat ->
  get4 (set4 w o c ky kx v) o' c' ky' kx'
  = if ((o' =? o) && (c' =? c) && (ky' =? ky) && (kx' =? kx))%nat then v
    else get4 w o' c' ky' kx'.
Proof.
  intros [HA HF] Ho Hc Hky Hkx. unfold get4, set4.
  rewrite nth_set_nth by lia.
  destruct (Nat.eqb_spec o' o) as [Eo|_]; [subst o'|reflexivity].
  pose proof (Forall_nth_in _ w o [] HF ltac:(lia)) as [HB HFm].
  rewrite nth_set_nth by lia.
  destruct (Nat.eqb_spec c' c) as [Ec|_]; [subst c'|reflexivity].
  pose proof (Forall_nth_in _ (nth o w []) c [] HFm ltac:(lia)) as [HC HFr].
  rewrite nth_set_nth by lia.
  destruct (Nat.eqb_spec ky' ky) as [Ek|_]; [subst ky'|reflexivity].
  pose proof (Forall_nth_in _ (nth c (nth o w []) []) ky [] HFr ltac:(lia)) as HD.
  cbv beta in HD. rewrite nth_set_nth by lia.
  reflexivity.
Qed.

Lemma make_layer_loop c1 n :
  (n <= c1)%nat ->
  let w :=
    fold_left
      (fun weight c =>
         let weight := set4 weight (c + 0 * c1) c 0 0 1 in
         let weight := set4 weight (c + 1 * c1) c 1 0 1 in
         let weight := set4 weight (c + 2 * c1) c 0 1 1 in
         set4 weight (c + 3 * c1) c 1 1 1)
      (seq 0 n)
      (zeros (c1 * 4) c1 2 2) in
  shaped4 (c1 * 4) c1 2 2 w
  /\ forall o c ky kx,
       (o < c1 * 4)%nat -> (c < c1)%nat -> (ky < 2)%nat -> (kx < 2)%nat ->
       get4 w o c ky kx
       = if ((c <? n) && (o =? c + (ky + 2 * kx) * c1))%nat then 1 else 0.
Proof.
  cbv zeta. induction n as [|n IH]; intros Hn.
  - simpl. split; [apply shaped4_zeros|].
    intros o c ky kx Ho Hc Hky Hkx. now apply get4_zeros.
  - destruct (IH ltac:(lia)) as [Hsh Hget].
    rewrite seq_S, fold_left_app. cbn [fold_left Nat.add].
    set (w := fold_left _ (seq 0 n) _) in *.
    assert (H1 : shaped4 (c1 * 4) c1 2 2 (set4 w (n + 0 * c1) n 0 0 1))
      by (apply set4_shaped; auto; lia).
    assert (H2 : shaped4 (c1 * 4) c1 2 2
                   (set4 (set4 w (n + 0 * c1) n 0 0 1) (n + 1 * c1) n 1 0 1))
      by (apply set4_shaped; auto; lia).
    assert (H3 : shaped4 (c1 * 4) c1 2 2
                   (set4 (set4 (set4 w (n + 0 * c1) n 0 0 1) (n + 1 * c1) n 1 0 1)
                      (n + 2 * c1) n 0 1 1))
      by (apply set4_shaped; auto; lia).
    split; [apply set4_shaped; auto; lia|].
    intros o c ky kx Ho Hc Hky Hkx.
    rewrite (get4_set4 _ _ _ _ _ _ _ _ _ _ _ _ _ _ H3 Ho Hc Hky Hkx).
    rewrite (get4_set4 _ _ _ _ _ _ _ _ _ _ _ _ _ _ H2 Ho Hc Hky Hkx).
    rewrite (get4_set4 _ _ _ _ _ _ _ _ _ _ _ _ _ _ H1 Ho Hc Hky Hkx).
    rewrite (get4_set4 _ _ _ _ _ _ _ _ _ _ _ _ _ _ Hsh Ho Hc Hky Hkx).
    rewrite (Hget o c ky kx Ho Hc Hky Hkx).
    assert (Hk : (ky = 0 \/ ky = 1)%nat) by lia.
    assert (Hx : (kx = 0 \/ kx = 1)%nat) by lia.
    destruct Hk; destruct Hx; subst ky kx; cbn [Nat.eqb andb Nat.add Nat.mul];
      rewrite ?andb_false_r; cbn [andb];
      repeat match goal with
             | |- context [Nat.eqb ?a ?b] => destruct (Nat.eqb_spec a b)
             | |- context [Nat.ltb ?a ?b] => destruct (Nat.ltb_spec a b)
             end; cbn [andb]; try reflexivity; try lia.
Qed.

(** X18.  The kernel of the Focus convolution is a selection: entry
    [(o, c, ky, kx)] is one when [o = c + (ky + 2 * kx) * c1] and zero
    otherwise, so output channel [c + g * c1] reads input channel [c] at
    the window position [(ky, kx) = (g mod 2, g / 2)] only. *)
Theorem make_layer_weight c1 o c ky kx :
  (o < c1 * 4)%nat -> (c < c1)%nat -> (ky < 2)%nat -> (kx < 2)%nat ->
  get4 (_make_layer c1) o c ky kx
  = if (o =? c + (ky + 2 * kx) * c1)%nat then 1 else 0.
Proof.
  intros Ho Hc Hky Hkx.
  destruct (make_layer_loop c1 c1 (le_n c1)) as [_ H].
  pose proof (H o c ky kx Ho Hc Hky Hkx) as E.
  rewrite (proj2 (Nat.ltb_lt c c1) Hc) in E. exact E.
Qed.

Lemma sum_Q_single (f : nat -> Q) n s c :
  (s <= c < s + n)%nat ->
  (forall k, (s <= k < s + n)%nat -> k <> c -> f k == 0) ->
  sum_Q (map f (seq s n)) == f c.
Proof.
  unfold sum_Q. revert s. induction n as [|n IH]; intros s Hc Hz; [lia|].
  cbn [seq map fold_right].
  destruct (Nat.eq_dec s c) as [E|E].
  - subst s.
    assert (H0 : fold_right Qplus 0 (map f (seq (S c) n)) == 0).
    { assert (Hz' : forall k, (S c <= k < S c + n)%nat -> f k == 0)
        by (intros k Hk; apply Hz; lia).
      clear -Hz'. revert Hz'. generalize (S c). induction n as [|n IH]; intros s Hz.
      - reflexivity.
      - cbn [seq map fold_right]. rewrite (Hz s) by lia.
        rewrite IH by (intros k Hk; apply Hz; lia). reflexivity. }
    rewrite H0. ring.
  - rewrite (Hz s) by lia. rewrite (IH (S s)); [ring|lia|].
    intros k Hk. apply Hz. lia.
Qed.

(** X19.  The Focus convolution is a space-to-depth rearrangement: on
    an image of [c1] channels and at least 2 x 2 pixels it returns
    [4 * c1] channels of half the height and width (rounded down), and
    channel [c + g * c1] at [(i, j)] is the input channel [c] at
    [(2 * i + g mod 2, 2 * j + g / 2)]. *)
Theorem focus_space_to_depth c1 H W x :
  (0 < c1)%nat -> (2 <= H)%nat -> (2 <= W)%nat -> array_shape c1 H W x ->
  exists out,
    focus c1 x = Some out
    /\ array_shape (c1 * 4) (H / 2) (W / 2) out
    /\ forall c g i j,
         (c < c1)%nat -> (g < 4)%nat -> (i < H / 2)%nat -> (j < W / 2)%nat ->
         nth j (nth i (nth (c + g * c1) out []) []) 0
         == nth (2 * j + g / 2) (nth (2 * i + g mod 2) (nth c x []) []) 0.
Proof.
  intros Hc1 HH HW [Hlen Hx].
  destruct (make_layer_loop c1 c1 (le_n c1)) as [[HA HF] _].
  change (fold_left _ (seq 0 c1) (zeros (c1 * 4) c1 2 2)) with (_make_layer c1)
    in HA, HF.
  pose proof (Forall_nth_in _ (_make_layer c1) 0 [] HF ltac:(lia)) as [HB _].
  pose proof (Forall_nth_in _ x 0 [] Hx ltac:(lia)) as [HxH HxW].
  pose proof (Forall_nth_in _ (nth 0 x []) 0 [] HxW ltac:(lia)) as HxW0.
  cbv beta in HxW0.
  unfold focus, conv2d. rewrite HB, HA, HxH, HxW0, Hlen, Nat.eqb_refl.
  rewrite (proj2 (Nat.leb_le 2 H) HH), (proj2 (Nat.leb_le 2 W) HW).
  cbn [andb]. eexists. split; [reflexivity|]. split.
  { split; [now rewrite length_map, length_seq|].
    rewrite Forall_map, Forall_forall. intros o _.
    split; [now rewrite length_map, length_seq|].
    rewrite Forall_map, Forall_forall. intros i _.
    now rewrite length_map, length_seq. }
  intros c g i j Hc Hg Hi Hj.
  rewrite (nth_map_seq _ (c1 * 4) (c + g * c1) [] ltac:(nia)).
  rewrite (nth_map_seq _ (H / 2) i [] Hi).
  rewrite (nth_map_seq _ (W / 2) j 0 Hj).
  rewrite (sum_Q_single _ c1 0 c ltac:(lia)).
  - unfold sum_Q. cbn [seq map fold_right].
    rewrite !make_layer_weight by (try lia; nia).
    assert (Hg' : (g = 0 \/ g = 1 \/ g = 2 \/ g = 3)%nat) by lia.
    destruct Hg' as [E|[E|[E|E]]]; subst g;
      cbn [Nat.div Nat.modulo Nat.divmod fst snd Nat.add Nat.mul Nat.sub];
      repeat match goal with
             | |- context [Nat.eqb ?a ?b] =>
                 destruct (Nat.eqb_spec a b); try lia
             end;
      rewrite ?Nat.add_0_r; ring.
  - intros k Hk Hne. unfold sum_Q. cbn [seq map fold_right].
    rewrite !make_layer_weight by (try lia; nia).
    assert (Hg' : (g = 0 \/ g = 1 \/ g = 2 \/ g = 3)%nat) by lia.
    destruct Hg' as [E|[E|[E|E]]]; subst g;
      repeat match goal with
             | |- context [Nat.eqb ?a ?b] =>
                 destruct (Nat.eqb_spec a b); try lia
             end;
      ring.
Qed.

End FocusFacts.

(** ** from_numpy_image and from_tensor_image *)

Module VisualizeFacts.

Import Visualize.













End VisualizeFacts.

(** ** When the assignment raises *)

Section Returns.

Variables (log sigmoid : Q -> Q) (binary_cross_entropy : Q -> Q -> Q).
Variable num_classes : nat.





End Returns.

(** * Worked inputs *)

Module Examples.

Import CenterSampling.

(** Rational stand-ins for the transcendental primitives, to run the
    model: the tangent of the logarithm at one, an algebraic sigmoid, and
    the cross-entropy they give.  They order the costs of the inputs
    below as [log] and [sigmoid] do. *)
Definition ex_log (x : Q) : Q := x - 1.
Definition ex_sigmoid (x : Q) : Q := 1 / 2 + x / (2 * (1 + Qabs x)).
Definition ex_bce (input target : Q) : Q :=
  - (target * ex_log input + (1 - target) * ex_log (1 - input)).

Definition box (a b c d : Q) : Box := {| x1 := a; y1 := b; x2 := c; y2 := d |}.
Definition anchor (x y s : Q) : Anchor := {| gx := x; gy := y; stride := s |}.

(** Two classes. *)
Definition run_batch := assign_batch ex_log ex_sigmoid ex_bce 2.
Definition run_image := assign_image ex_log ex_sigmoid ex_bce 2.

(** A 2 x 2 grid of stride 8, three images, targets in the first two. *)
Definition grid : list Anchor :=
  [anchor 0 0 8; anchor 1 0 8; anchor 0 1 8; anchor 1 1 8].
Definition grid_pred : list Pred :=
  [ {| p_box := box 0 0 8 8; p_scores := [5; -5] |};
    {| p_box := box 8 0 16 8; p_scores := [0; 0] |};
    {| p_box := box 0 8 8 16; p_scores := [-1; -2] |};
    {| p_box := box 8 8 16 16; p_scores := [-5; 5] |} ].
Definition grid_target : list Target :=
  [ {| t_img := 0; t_cls := 0; t_box := box 0 0 8 8 |};
    {| t_img := 0; t_cls := 1; t_box := box 8 8 16 16 |};
    {| t_img := 1; t_cls := 0; t_box := box 0 0 4 4 |} ].


(** Two anchors inside the first target; the second target is far from
    both, and the prediction at the second anchor is the second target's
    box. *)
Definition far_anchors : list Anchor := [anchor 0 0 8; anchor 1 0 8].
Definition far_near : Target := {| t_img := 0; t_cls := 0; t_box := box 0 0 16 8 |}.
Definition far_away : Target :=
  {| t_img := 0; t_cls := 1; t_box := box 100 100 120 120 |}.
Definition far_pred : list Pred :=
  [ {| p_box := box 0 0 16 8; p_scores := [5; -5] |};
    {| p_box := box 100 100 120 120; p_scores := [-5; 5] |} ].









(** C6, on the far target and the prediction at the second anchor. *)
Lemma cost_matrix_entry_witness :
  shaped 2 2 [[true; true]; [false; false]]
  /\ exists cost,
       build_cost ex_log ex_sigmoid ex_bce 2 [far_near; far_away] far_pred
         [[true; true]; [false; false]] = Some cost
       /\ nth 1 (nth 1 cost []) 0
          == spec_cost ex_log ex_sigmoid ex_bce 2 far_away
               {| p_box := box 100 100 120 120; p_scores := [-5; 5] |} false.
Proof.
  assert (Hs : shaped 2 2 [[true; true]; [false; false]])
    by (split; [reflexivity | repeat constructor]).
  split; [exact Hs|].
  destruct (build_cost ex_log ex_sigmoid ex_bce 2 [far_near; far_away] far_pred
              [[true; true]; [false; false]]) as [cost|] eqn:E;
    [|vm_compute in E; discriminate].
  exists cost. split; [reflexivity|].
  refine (proj1 (cost_matrix_entry ex_log ex_sigmoid ex_bce 2
                   [far_near; far_away] far_pred [[true; true]; [false; false]]
                   cost 1 1 far_away
                   {| p_box := box 100 100 120 120; p_scores := [-5; 5] |}
                   E Hs _ eq_refl eq_refl)).
  repeat constructor.
Defined.

(** C9 as stated fails: three images of four anchors give twelve flags
    and three boxes. *)
Lemma box_target_counterexample :
  (length [grid_pred; grid_pred; grid_pred] * length grid = 12)%nat
  /\ option_map (fun a => length (match_mask a))
       (result (run_batch [grid_pred; grid_pred; grid_pred] grid_target grid 1))
     = Some 12%nat
  /\ option_map (fun a => length (box_target a))
       (result (run_batch [grid_pred; grid_pred; grid_pred] grid_target grid 1))
     = Some 3%nat.
Proof. repeat split; vm_compute; reflexivity. Qed.

(** C9 (amended), on the same batch. *)
Lemma assign_batch_layout_witness :
  Forall (fun p : list Pred => length p = length grid) [grid_pred; grid_pred; grid_pred]
  /\ exists a s',
       run_batch [grid_pred; grid_pred; grid_pred] grid_target grid 1 = Some (a, s')
       /\ length (match_mask a) = 12%nat
       /\ length (box_target a) = count_true (match_mask a).
Proof.
  assert (HF : Forall (fun p : list Pred => length p = length grid)
                 [grid_pred; grid_pred; grid_pred]) by (repeat constructor).
  split; [exact HF|].
  destruct (run_batch [grid_pred; grid_pred; grid_pred] grid_target grid 1)
    as [[a s']|] eqn:E; [|vm_compute in E; discriminate].
  exists a, s'. split; [reflexivity|].
  destruct (assign_batch_layout ex_log ex_sigmoid ex_bce 2
              [grid_pred; grid_pred; grid_pred] grid_target grid 1 a s' HF E)
    as [Hm [_ [_ [Hb _]]]].
  split; [exact Hm | exact Hb].
Defined.

(** C8 on the grid: the third image has no target, and its four anchors,
    all unmatched, carry class 0, while the unmatched anchors of the
    first two images carry the background class 2. *)
Theorem empty_image_class_target :
  option_map match_mask
    (result (run_batch [grid_pred; grid_pred; grid_pred] grid_target grid 1))
  = Some [true; false; false; true;  true; false; false; false;
          false; false; false; false]
  /\ option_map cls_target
       (result (run_batch [grid_pred; grid_pred; grid_pred] grid_target grid 1))
     = Some [0; 2; 2; 1;  0; 2; 2; 2;  0; 0; 0; 0]%nat.
Proof. split; vm_compute; reflexivity. Qed.

End Examples.

(** * Worked inputs for the further properties *)

Module MoreExamples.

Import CenterSampling Examples.

(** X1, on the first anchor of the first image of the grid. *)
Lemma matched_anchor_is_eligible_witness :
  exists a s',
    run_image grid_target grid 0%nat grid_pred 1 = Some (a, s')
    /\ nth 0 (match_mask a) false = true
    /\ exists t, In t grid_target /\ t_img t = 0%nat
                 /\ (inside_box t (anchor 0 0 8) \/ inside_center t (anchor 0 0 8)).
Proof.
  destruct (run_image grid_target grid 0%nat grid_pred 1) as [[a s']|] eqn:E;
    [|vm_compute in E; discriminate].
  assert (Hm : nth 0 (match_mask a) false = true).
  { vm_compute in E. injection E as Ea _. subst a. reflexivity. }
  exists a, s'. split; [reflexivity|]. split; [exact Hm|].
  exact (matched_anchor_is_eligible ex_log ex_sigmoid ex_bce 2
           grid_target grid 0%nat grid_pred 1 a s' 0%nat (anchor 0 0 8)
           E eq_refl Hm).
Defined.

(** X2, on two targets that select one candidate each. *)
Lemma matched_iff_selected_witness :
  shaped 2 2 [[0; 1]; [1; 0]]
  /\ select_topk 2 [[0; 1]; [1; 0]] [1%Z; 1%Z] = Some [[1; 0]; [0; 1]]%nat
  /\ (nth 0 (fst (fst (collect 2 [] (purge 2 [[0; 1]; [1; 0]] [[1; 0]; [0; 1]]%nat))))
          false = true
      <-> exists t, (t < 2)%nat /\ entry [[1; 0]; [0; 1]]%nat t 0 = 1%nat).
Proof.
  assert (Hs : shaped 2 2 [[0; 1]; [1; 0]])
    by (split; [reflexivity | repeat constructor]).
  assert (Hsel : select_topk 2 [[0; 1]; [1; 0]] [1%Z; 1%Z] = Some [[1; 0]; [0; 1]]%nat)
    by (vm_compute; reflexivity).
  split; [exact Hs|]. split; [exact Hsel|].
  apply (matched_iff_selected 2 2 [[0; 1]; [1; 0]] [1%Z; 1%Z]
           [[1; 0]; [0; 1]]%nat [] 0%nat Hs eq_refl Hsel).
  lia.
Defined.

(** X3 and X4, on a first column marked by both targets. *)
Lemma purge_idempotent_witness :
  shaped 2 2 [[0; 1]; [1; 0]] /\ shaped 2 2 [[1; 1]; [1; 0]]%nat
  /\ purge 2 [[0; 1]; [1; 0]] (purge 2 [[0; 1]; [1; 0]] [[1; 1]; [1; 0]]%nat)
     = purge 2 [[0; 1]; [1; 0]] [[1; 1]; [1; 0]]%nat.
Proof.
  assert (Hs : shaped 2 2 [[0; 1]; [1; 0]])
    by (split; [reflexivity | repeat constructor]).
  assert (HM : shaped 2 2 [[1; 1]; [1; 0]]%nat)
    by (split; [reflexivity | repeat constructor]).
  split; [exact Hs|]. split; [exact HM|].
  exact (purge_idempotent 2 2 _ _ Hs HM).
Defined.

Lemma purge_winner_witness :
  (1 < sum_nat (col 0%nat [[1; 1]; [1; 0]]%nat 0))%nat
  /\ entry (purge 2 [[0; 1]; [1; 0]] [[1; 1]; [1; 0]]%nat) 0 0 = 1%nat
  /\ entry (purge 2 [[0; 1]; [1; 0]] [[1; 1]; [1; 0]]%nat) 1 0 = 0%nat.
Proof.
  assert (Hs : shaped 2 2 [[0; 1]; [1; 0]])
    by (split; [reflexivity | repeat constructor]).
  assert (HM : shaped 2 2 [[1; 1]; [1; 0]]%nat)
    by (split; [reflexivity | repeat constructor]).
  assert (Hd : (1 < sum_nat (col 0%nat [[1; 1]; [1; 0]]%nat 0))%nat)
    by (vm_compute; repeat constructor).
  split; [exact Hd|].
  destruct (purge_winner 2 2 [[0; 1]; [1; 0]] [[1; 1]; [1; 0]]%nat 0%nat Hs HM
              ltac:(lia) Hd) as [_ [He _]].
  split; [exact (He 0%nat ltac:(lia)) | exact (He 1%nat ltac:(lia))].
Defined.

(** X5 and X8, on the image of the two far targets. *)
Lemma quality_is_column_max_witness :
  filter (fun t => (t_img t =? 0)%nat) [far_near; far_away] <> []
  /\ length far_pred = length far_anchors
  /\ exists a s' mp tp p_iou,
       run_image [far_near; far_away] far_anchors 0%nat far_pred 1 = Some (a, s')
       /\ dynamic_topk ex_log ex_sigmoid ex_bce 2 far_pred [far_near; far_away]
            (fst (center_sampling [far_near; far_away] far_anchors))
            (snd (center_sampling [far_near; far_away] far_anchors)) 1
          = Some (mp, tp, p_iou, s')
       /\ Forall2 Qeq (mask_select (match_mask a) (obj_target a))
            (mask_select mp p_iou).
Proof.
  assert (Hne : filter (fun t => (t_img t =? 0)%nat) [far_near; far_away] <> [])
    by (simpl; discriminate).
  assert (HA : length far_pred = length far_anchors) by reflexivity.
  split; [exact Hne|]. split; [exact HA|].
  destruct (run_image [far_near; far_away] far_anchors 0%nat far_pred 1)
    as [[a s']|] eqn:E; [|vm_compute in E; discriminate].
  destruct (quality_is_column_max ex_log ex_sigmoid ex_bce 2
              [far_near; far_away] far_anchors 0%nat far_pred 1 a s' Hne HA E)
    as [mp [tp [p_iou [Hdyn [Hq _]]]]].
  exists a, s', mp, tp, p_iou. split; [reflexivity|]. split; [exact Hdyn | exact Hq].
Defined.


(** X6: the rows of the third target moved to the front, and a row of an
    image outside the batch added. *)
Lemma assign_batch_groups_by_image_witness :
  run_batch [grid_pred; grid_pred; grid_pred] grid_target grid 1
  = run_batch [grid_pred; grid_pred; grid_pred]
      ({| t_img := 1; t_cls := 0; t_box := box 0 0 4 4 |}
       :: {| t_img := 7; t_cls := 1; t_box := box 0 0 4 4 |}
       :: firstn 2 grid_target) grid 1.
Proof.
  apply (assign_batch_groups_by_image ex_log ex_sigmoid ex_bce 2).
  intros bi Hbi. destruct bi as [|[|[|bi]]]; try reflexivity.
  simpl in Hbi. lia.
Defined.

(** X7, on the grid: the second image is the last one with targets. *)
Lemma max_topk_after_batch_witness :
  exists a s',
    run_batch [grid_pred; grid_pred; grid_pred] grid_target grid 1 = Some (a, s')
    /\ exists tk,
         top_ious 4 (pair_wise_iou [{| t_img := 1; t_cls := 0; t_box := box 0 0 4 4 |}]
                       grid_pred) = Some tk
         /\ s' = sum_Q (map sum_Q tk) / inject_Z 1.
Proof.
  destruct (run_batch [grid_pred; grid_pred; grid_pred] grid_target grid 1)
    as [[a s']|] eqn:E; [|vm_compute in E; discriminate].
  exists a, s'. split; [reflexivity|].
  refine (proj2 (max_topk_after_batch ex_log ex_sigmoid ex_bce 2
                   [grid_pred; grid_pred; grid_pred] grid_target grid 1 a s' E)
            1%nat grid_pred eq_refl _ _).
  - simpl. discriminate.
  - intros bj Hbj. simpl in Hbj. assert (bj = 2%nat) by lia. subst bj. reflexivity.
Defined.

Lemma center_window_5x5_witness :
  (CenterSampling.in_center
     {| t_img := 0; t_cls := 0; t_box := {| x1 := 10; y1 := 10; x2 := 30; y2 := 30 |} |}
     {| gx := 4; gy := 0; stride := 8 |} = true
   <-> (Z.abs (4 - 2) <= 2 /\ Z.abs (0 - 2) <= 2)%Z)
  /\ ((Z.abs (4 - 2) <= 2 /\ Z.abs (0 - 2) <= 2)%Z ->
      nth 1 (fst (CenterSampling.center_sampling
                    [ {| t_img := 0; t_cls := 0;
                         t_box := {| x1 := 10; y1 := 10; x2 := 30; y2 := 30 |} |} ]
                    [ {| gx := 0; gy := 0; stride := 8 |};
                      {| gx := 4; gy := 0; stride := 8 |} ])) false = true).
Proof.
  apply (center_window_5x5
           [ {| t_img := 0; t_cls := 0;
                t_box := {| x1 := 10; y1 := 10; x2 := 30; y2 := 30 |} |} ]
           [ {| gx := 0; gy := 0; stride := 8 |};
             {| gx := 4; gy := 0; stride := 8 |} ]
           {| t_img := 0; t_cls := 0;
              t_box := {| x1 := 10; y1 := 10; x2 := 30; y2 := 30 |} |}
           1%nat {| gx := 4; gy := 0; stride := 8 |} 4 0 2 2).
  - left. reflexivity.
  - reflexivity.
  - reflexivity.
  - reflexivity.
  - reflexivity.
  - reflexivity.
  - reflexivity.
  - reflexivity.
  - reflexivity.
Defined.

Lemma label_smoothing_one_hot_witness :
  exists caller smoothed,
    label_smoothing [0; 1; 0] (1 # 10) 3 false = Some (caller, smoothed)
    /\ smoothed = map (fun v => if Qlt_bool 0 v then 1 - (1 # 10)
                                else (1 # 10) / inject_Z (3 - 1)) [0; 1; 0]
    /\ sum_Q smoothed == 1.
Proof.
  apply (label_smoothing_one_hot [0; 1; 0] (1 # 10) 3 false).
  - lia.
  - reflexivity.
  - reflexivity.
Defined.

Lemma label_smoothing_twice_witness :
  exists caller smoothed caller',
    label_smoothing [0; 1; 0] (1 # 10) 3 false = Some (caller, smoothed)
    /\ label_smoothing smoothed (1 # 10) 3 true
       = Some (caller', map (fun _ => 1 - (1 # 10)) [0; 1; 0]).
Proof.
  apply (label_smoothing_twice [0; 1; 0] (1 # 10) 3 false true).
  - lia.
  - reflexivity.
  - reflexivity.
Defined.

(** Stand-ins for the loss primitives: the plain IoU row by row, a sum of
    squared scores, the arithmetic mean. *)
Definition ex_ciou (input target : list Box) : list Q := zip_with box_iou input target.
Definition ex_qfl (pred : list (list Q)) (quality : list nat * list Q) : Q :=
  sum_Q (map (fun row => sum_Q (map (fun v => v * v) row)) pred).
Definition ex_mean (l : list Q) : Q := sum_Q l / inject_Z (Z.of_nat (length l)).

Lemma forward_loss_defined_witness :
  Forall (fun p : list Pred => length p = length grid) [grid_pred; grid_pred; grid_pred]
  /\ exists a s' loss,
       run_batch [grid_pred; grid_pred; grid_pred] grid_target grid 1 = Some (a, s')
       /\ forward ex_log ex_sigmoid ex_bce 2 ex_ciou ex_qfl ex_mean true
            [grid_pred; grid_pred; grid_pred] grid_target grid 1
          = Some (inl loss, s').
Proof.
  assert (HF : Forall (fun p : list Pred => length p = length grid)
                 [grid_pred; grid_pred; grid_pred]) by (repeat constructor).
  split; [exact HF|].
  destruct (run_batch [grid_pred; grid_pred; grid_pred] grid_target grid 1)
    as [[a s']|] eqn:E; [|vm_compute in E; discriminate].
  exists a, s'. eexists. split; [reflexivity|].
  exact (proj2 (forward_loss_defined ex_log ex_sigmoid ex_bce 2 ex_ciou ex_qfl ex_mean
                  [grid_pred; grid_pred; grid_pred] grid_target grid 1 a s' HF E)).
Defined.


End MoreExamples.

(** ** Worked inputs of the exporter *)

Module XnncCaffeExamples.

Import String Ascii XnncCaffe.
Local Open Scope string_scope.

(** A layer with one input and one output blob of the same shape. *)
Definition relu : Layer :=
  {| output_names := ["y"];
     input_names := ["x"];
     reshape := fun bottom =>
                  match bottom with
                  | Some [shape] => Some [shape]
                  | _ => None
                  end |}.


Lemma register_shape_key_error_witness :
  register_shape relu [("data", [1; 3; 8; 8]%Z)] false = inl (KeyError "x").
Proof.
  apply (XnncCaffeFacts.register_shape_key_error relu _ 0%nat "x").
  - reflexivity.
  - reflexivity.
  - intros j y Hj. lia.
Defined.

End XnncCaffeExamples.

(** ** Worked inputs of the model and of the image conversions *)

Module ModelExamples.

Import Examples.

(** One anchor of 10 x 13 pixels on a 2 x 2 grid of stride 8, one class:
    six output channels. *)
Definition head_out : list (list (list Q)) :=
  [ [[0; 1]; [2; -1]]; [[0; 0]; [1; 1]]; [[-1; 0]; [3; 0]];
    [[0; 0]; [0; -2]]; [[1; 1]; [1; 1]]; [[0; 0]; [0; 0]] ].

Lemma detect_layer_row_witness :
  exists row,
    nth_error (Detect.detect_layer ex_sigmoid 6 1 8 [(10, 13)] head_out) 2 = Some row
    /\ length row = 6%nat
    /\ (0 - 0.5) * 8 <= nth 0 row 0 <= (0 + 1.5) * 8
    /\ 0 <= nth 2 row 0 <= 4 * 10.
Proof.
  destruct (detect_layer_row ex_sigmoid 6 1 8 [(10, 13)] head_out 0 1 0)
    as [_ [row [Hrow [Hlen [Hx [_ [Hw _]]]]]]].
  - lia.
  - lia.
  - simpl. lia.
  - simpl. lia.
  - discriminate.
  - discriminate.
  - discriminate.
  - intros o Ho.
    destruct o as [|[|[|[|o]]]]; [| | | |lia]; split; vm_compute; discriminate.
  - exists row. repeat split; try assumption; [apply Hx | apply Hx | apply Hw | apply Hw].
Defined.

Lemma make_layer_weight_witness :
  Focus.get4 (Focus._make_layer 2) 5 1 0 1 = 1
  /\ Focus.get4 (Focus._make_layer 2) 5 1 1 0 = 0.
Proof.
  split.
  - apply (FocusFacts.make_layer_weight 2 5 1 0 1); lia.
  - apply (FocusFacts.make_layer_weight 2 5 1 1 0); lia.
Defined.

Lemma focus_space_to_depth_witness :
  exists out,
    Focus.focus 1 [[[1; 2]; [3; 4]]] = Some out
    /\ nth 0 (nth 0 (nth 1 out []) []) 0 == 3
    /\ nth 0 (nth 0 (nth 2 out []) []) 0 == 2.
Proof.
  destruct (FocusFacts.focus_space_to_depth 1 2 2 [[[1; 2]; [3; 4]]])
    as [out [Hrun [_ Hpix]]].
  - lia.
  - lia.
  - lia.
  - repeat constructor.
  - exists out. split; [exact Hrun|]. split.
    + apply (Hpix 0%nat 1%nat 0%nat 0%nat); simpl; lia.
    + apply (Hpix 0%nat 2%nat 0%nat 0%nat); simpl; lia.
Defined.


End ModelExamples.
